(** * Speed profiles by Gaussian kernel weighting (src/helpers/speed_profile.py)

    A shallow embedding of the speed-profile core of the MADRAS data app:
    the grid builder [get_grid_cells], the Gaussian kernel
    [_compute_gaussian_weights], the per-frame weighting engine
    [_compute_gaussian_weighted_speed_profile] and the batch driver
    [compute_speed_profile].

    Numbers.  The program computes on [np.float64].  Here a float is a real
    number: rounding, overflow, underflow, infinities and NaN are not modelled,
    and [np.sqrt], [np.log], [np.exp], [np.pi] are the functions and the
    constant of real analysis.  A quotient of the model agrees with the
    program's quotient only where the divisor is not zero (Rocq's [x / 0] is
    [0]; numpy's is an infinity or NaN with a warning), so a statement below
    about the value of a quotient carries the hypothesis that makes its
    divisor nonzero.  Integers ([rows], [cols], [len(...) - 1]) are in [Z], since the
    program lets them become negative.

    Arrays.  A one-dimensional array is a [list]; a two-dimensional array is a
    list of rows.  Exceptions raised by numpy are values of [exn] carried by
    [result].

    Where the idealisation departs from the program.  Two effects of
    [np.float64] are visible on ordinary inputs and are outside the real
    model.  First, [np.arange] takes its length from a quotient rounded to
    binary64, so the number of grid lines along an axis can differ by one
    from the ceiling of the exact quotient: the statements over [R] that
    speak of the grid use the counts [get_grid_cells] returns, and the grid
    builder is embedded a second time, bit for bit on binary64, in the module
    [Float64], where the counts themselves are settled.  Second, [np.exp]
    underflows: beyond about 16.4 [fwhm] the program's weight is exactly
    [0.0], so a cell far from every agent has weight sum [0.0] and holds
    NaN, whereas a weight of the model is never zero for a nonzero [fwhm].
    A statement that gives the value of a cell, or bounds it, at an arbitrary
    distance from the agents therefore carries the hypothesis that the sum of
    the cell's raw weights is not zero, which is what keeps the program's
    quotient away from [0.0 / 0.0]; a statement that equates two runs of the
    engine relates cells that are undefined in both runs or in neither.

    Two more parts of the application are embedded after the core, each in a
    module of its own: the trajectory preparation of the animation tab
    ([AnimationTab]) and the camera file and video choice of the map tab
    ([MapTab]). *)

From Stdlib Require Import Reals List ZArith Lia Lra Bool Permutation Sorted.
From Stdlib Require String Ascii DecimalString.
From Stdlib Require PrimFloat FloatOps SpecFloat Uint63 QArith Qround.
Import String.StringSyntax Ascii.AsciiSyntax.
Delimit Scope string_scope with string.
Delimit Scope char_scope with char.
Import ListNotations.

Open Scope R_scope.

(** ** Exceptions and the error monad *)

(** [pedpy.SpeedMethod]: the enumeration the driver is handed.  The driver
    compares against [GAUSSIAN] only. *)
Inductive SpeedMethod : Type :=
| ARITHMETIC
| VORONOI
| GAUSSIAN.

Definition SpeedMethod_eqb (a b : SpeedMethod) : bool :=
  match a, b with
  | ARITHMETIC, ARITHMETIC | VORONOI, VORONOI | GAUSSIAN, GAUSSIAN => true
  | _, _ => false
  end.

(** The exceptions the modelled code can raise.  None of them is a geometry or
    parameter error of the program's own: the first four come from numpy or
    Python, the last is the [ValueError] of line 134. *)
Inductive exn : Type :=
| ArangeZeroStep          (* np.arange with a zero step *)
| VectorizeSizeZero       (* np.vectorize called on a size 0 input *)
| SliceStepZero           (* a[::0] *)
| ReshapeSizeMismatch     (* ndarray.reshape to a shape of another size *)
| SpeedMethodNotAccepted (m : SpeedMethod).

Inductive result (A : Type) : Type :=
| Ok (a : A)
| Err (e : exn).

Arguments Ok {A} a.
Arguments Err {A} e.

Definition bind {A B : Type} (m : result A) (k : A -> result B) : result B :=
  match m with
  | Ok a => k a
  | Err e => Err e
  end.

Notation "x <- m ;; k" := (bind m (fun x => k))
  (at level 61, m at next level, right associativity).
Notation "' p <- m ;; k" := (bind m (fun p => k))
  (at level 61, p pattern, m at next level, right associativity).

(** The exception a computation ended with, if any. *)
Definition result_error {A : Type} (m : result A) : option exn :=
  match m with
  | Ok _ => None
  | Err e => Some e
  end.

(** A [for] loop whose body may raise and whose results are appended to a
    list: the first exception ends the loop. *)
Fixpoint for_each {A B : Type} (body : A -> result B) (l : list A)
  : result (list B) :=
  match l with
  | [] => Ok []
  | a :: l' => b <- body a ;; bs <- for_each body l' ;; Ok (b :: bs)
  end.

(** ** numpy and Python primitives *)

(** The ceiling of a real, from the standard library's [up]
    ([up r] is the integer with [r < up r <= r + 1]). *)
Definition ceil (r : R) : Z := (1 - up (- r))%Z.

(** [range(n)] for a Python integer [n]: empty when [n <= 0]. *)
Definition range (n : Z) : list nat := seq 0 (Z.to_nat n).

(** [np.arange(start, stop, step)] on floats: [ceil((stop - start) / step)]
    values [start + i * step] (none when that length is not positive); a zero
    step is refused.  The ceiling is the one of the exact quotient; numpy
    takes it of the quotient rounded to binary64, which [Float64.arange]
    below follows. *)
Definition arange (start stop step : R) : result (list R) :=
  if Req_dec_T step 0 then Err ArangeZeroStep
  else Ok (map (fun i => start + INR i * step)
               (range (ceil ((stop - start) / step)))).

(** [np.sum] over one axis and [np.tensordot] over one shared axis.  Over the
    empty axis both give 0. *)
Definition np_sum (l : list R) : R := fold_right Rplus 0 l.

Definition tensordot (a b : list R) : R :=
  np_sum (map (fun p => fst p * snd p) (combine a b)).

(** [a[:k]] for a Python integer [k] (a negative [k] counts from the end). *)
Definition slice_to {A : Type} (k : Z) (a : list A) : list A :=
  if (k <? 0)%Z then firstn (length a - Z.to_nat (- k)) a
  else firstn (Z.to_nat k) a.

(** Every [k]-th element of [a] from its first one, [k >= 1]. *)
Definition stride {A : Type} (k : nat) (a : list A) : list A :=
  flat_map (fun q => firstn 1 (skipn (q * k) a)) (seq 0 (length a)).

(** [a[::k]]: a zero step is refused, a negative one walks from the end. *)
Definition slice_step {A : Type} (k : Z) (a : list A) : result (list A) :=
  if (k =? 0)%Z then Err SliceStepZero
  else if (k <? 0)%Z then Ok (stride (Z.to_nat (- k)) (rev a))
  else Ok (stride (Z.to_nat k) a).

(** [np.vectorize(f)(a)]: refuses an array of size 0 (no [otypes] is set). *)
Definition np_vectorize {A B : Type} (f : A -> B) (a : list A)
  : result (list B) :=
  match a with
  | [] => Err VectorizeSizeZero
  | _ => Ok (map f a)
  end.

(** [m.T] for a two-dimensional array of shape [(length m, n)]. *)
Definition np_T (n : nat) (m : list (list R)) : list (list R) :=
  map (fun i => map (fun line => nth i line 0) m) (seq 0 n).

(** [m.reshape(rows, cols)] for a two-dimensional C-ordered [m]: the elements
    in row-major order, cut into [rows] lines of [cols].  The sizes must agree.
    (A negative dimension, numpy's wildcard, never reaches the call in the
    driver and is refused here.) *)
Definition reshape (rows cols : Z) (m : list (list R))
  : result (list (list R)) :=
  let flat := concat m in
  if ((0 <=? rows) && (0 <=? cols)
      && (Z.of_nat (length flat) =? rows * cols))%Z
  then Ok (map (fun q => firstn (Z.to_nat cols) (skipn (q * Z.to_nat cols) flat))
               (range rows))
  else Err ReshapeSizeMismatch.

(** ** Geometry: shapely and pedpy *)

(** [shapely.box(xmin, ymin, xmax, ymax)]: the rectangle with these corner
    coordinates, kept as given. *)
Record Polygon : Type := shapely_box
  { box_x0 : R; box_y0 : R; box_x1 : R; box_y1 : R }.

Record Point : Type := mkPoint { get_x : R; get_y : R }.

(** [shapely.centroid] of a rectangle: its midpoint. *)
Definition shapely_centroid (b : Polygon) : Point :=
  mkPoint ((box_x0 b + box_x1 b) / 2) ((box_y0 b + box_y1 b) / 2).

(** [pedpy.WalkableArea], as far as the core reads it: the bounding box
    [(min_x, min_y, max_x, max_y)] of its polygon. *)
Record WalkableArea : Type := mkWalkableArea
  { bounds : R * R * R * R }.

(** ** The grid builder *)

Definition get_grid_cells (walkable_area : WalkableArea) (grid_size : R)
  : result (list Polygon * Z * Z) :=
  let '(min_x, min_y, max_x, max_y) := bounds walkable_area in
  x_coords <- arange min_x (max_x + grid_size) grid_size ;;
  y_coords <- arange max_y (min_y - grid_size) (- grid_size) ;;
  let grid_cells :=
    flat_map (fun j =>
      map (fun i =>
             shapely_box (nth i x_coords 0) (nth j y_coords 0)
                         (nth (i + 1) x_coords 0) (nth (j + 1) y_coords 0))
          (range (Z.of_nat (length x_coords) - 1)))
      (range (Z.of_nat (length y_coords) - 1)) in
  Ok (grid_cells,
      (Z.of_nat (length y_coords) - 1)%Z,
      (Z.of_nat (length x_coords) - 1)%Z).

(** ** The frame table *)

(** One row of the trajectory table: the columns the core reads
    ([FRAME_COL], [x], [y], [speed]). *)
Record row : Type := mkRow
  { frame : Z; x : R; y : R; speed : R }.

Definition DataFrame : Type := list row.

(** The sorted distinct keys of a column: [insert_key] keeps a strictly
    ascending list. *)
Fixpoint insert_key (k : Z) (keys : list Z) : list Z :=
  match keys with
  | [] => [k]
  | h :: t =>
      if (k <? h)%Z then k :: keys
      else if (k =? h)%Z then keys
      else h :: insert_key k t
  end.

Definition sorted_keys (column : list Z) : list Z :=
  fold_right insert_key [] column.

(** The rows of one frame, in the order of the table. *)
Definition rows_of_frame (f : Z) (data : DataFrame) : DataFrame :=
  filter (fun r => (frame r =? f)%Z) data.

(** [data.groupby(FRAME_COL)], iterated: pandas sorts the group keys
    ([sort=True] is the default) and keeps the rows of a group in the order of
    the table.  Every group has at least one row. *)
Definition groupby (data : DataFrame) : list (Z * DataFrame) :=
  map (fun f => (f, rows_of_frame f data)) (sorted_keys (map frame data)).

(** ** The Gaussian kernel

    [exp] is the exponential of real analysis: it is never zero, whereas
    [np.exp] returns [0.0] below about [-745]. *)

Definition _compute_gaussian_weights (x fwhm : R) : R :=
  let sigma := fwhm / (2 * sqrt (2 * ln 2)) in
  1 / (sigma * sqrt (2 * PI)) * exp (- (x ^ 2) / (2 * sigma ^ 2)).

(** ** The kernel weighting engine, cell by cell

    [distance[j, i, k]], [weights[j, i, k]] and [normalized_weights[j, i, k]]
    for the cell of centre [(cx, cy) = (center_x[j], center_y[i])], as lists
    over the agents [k]. *)
Definition distance (frame_data : DataFrame) (cx cy : R) : list R :=
  map (fun r => sqrt ((cx - x r) ^ 2 + (cy - y r) ^ 2)) frame_data.

Definition weights (frame_data : DataFrame) (fwhm cx cy : R) : list R :=
  map (fun d => _compute_gaussian_weights d fwhm) (distance frame_data cx cy).

Definition normalized_weights (frame_data : DataFrame) (fwhm cx cy : R)
  : list R :=
  let w := weights frame_data fwhm cx cy in
  map (fun wk => wk / np_sum w) w.

(** [weighted_speeds[j, i]]. *)
Definition weighted_speed (frame_data : DataFrame) (fwhm cx cy : R) : R :=
  tensordot (normalized_weights frame_data fwhm cx cy) (map speed frame_data).

(** The engine: [weighted_speeds] has shape [(len(center_x), len(center_y))]
    and is returned transposed. *)
Definition _compute_gaussian_weighted_speed_profile
  (frame_data : DataFrame) (center_x center_y : list R) (fwhm : R)
  : list (list R) :=
  let weighted_speeds :=
    map (fun cx => map (fun cy => weighted_speed frame_data fwhm cx cy) center_y)
        center_x in
  np_T (length center_y) weighted_speeds.

(** ** The batch driver *)

(** The default of [fill_value] is [np.nan], which is no real number. *)
Inductive np_float : Type :=
| np_nan
| np_real (r : R).

Definition compute_speed_profile
  (data : DataFrame) (walkable_area : WalkableArea) (grid_size : R)
  (speed_method : SpeedMethod)
  (grid_intersections_area : option (list R)) (fill_value : np_float)
  (fwhm : R) : result (list (list (list R))) :=
  let data_grouped_by_frame := groupby data in
  '(grid_cells, rows, cols) <- get_grid_cells walkable_area grid_size ;;
  grid_center <- np_vectorize shapely_centroid grid_cells ;;
  let center_x := map get_x (slice_to cols grid_center) in
  center_y_points <- slice_step cols grid_center ;;
  let center_y := map get_y center_y_points in
  for_each
    (fun group : Z * DataFrame =>
       let frame_data := snd group in
       speed_profile <-
         (if true || SpeedMethod_eqb speed_method GAUSSIAN
          then Ok (_compute_gaussian_weighted_speed_profile
                     frame_data center_x center_y fwhm)
          else Err (SpeedMethodNotAccepted speed_method)) ;;
       reshape rows cols speed_profile)
    data_grouped_by_frame.

(** ** What the specification says, for comparison *)

(** The distinct frame identifiers in the order of their first occurrence. *)
Fixpoint first_seen_keys (column : list Z) : list Z :=
  match column with
  | [] => []
  | k :: t => k :: filter (fun k' => negb (k' =? k)%Z) (first_seen_keys t)
  end.


(** The cell [(i, j)] of a two-dimensional array, if there is one. *)
Definition cell_at (m : list (list R)) (i j : nat) : option R :=
  match nth_error m i with
  | Some line => nth_error line j
  | None => None
  end.

(** [np.min] and [np.max] of a non-empty one-dimensional array. *)
Definition np_min (l : list R) : R :=
  match l with
  | [] => 0
  | a :: t => fold_right Rmin a t
  end.

Definition np_max (l : list R) : R :=
  match l with
  | [] => 0
  | a :: t => fold_right Rmax a t
  end.

(** ** Names for the parts of the kernel

    The two factors of [_compute_gaussian_weights]: the peak
    [1 / (sigma * sqrt(2 pi))] and the shape [exp(- x^2 / (2 sigma^2))]. *)
Definition gaussian_peak (fwhm : R) : R :=
  1 / (fwhm / (2 * sqrt (2 * ln 2)) * sqrt (2 * PI)).

Definition gaussian_shape (x fwhm : R) : R :=
  exp (- (x ^ 2) / (2 * (fwhm / (2 * sqrt (2 * ln 2))) ^ 2)).

(** The raw weight of one agent at the cell of centre [(cx, cy)], and its
    shape factor. *)
Definition agent_weight (fwhm cx cy : R) (r : row) : R :=
  _compute_gaussian_weights (sqrt ((cx - x r) ^ 2 + (cy - y r) ^ 2)) fwhm.

Definition agent_shape (fwhm cx cy : R) (r : row) : R :=
  gaussian_shape (sqrt ((cx - x r) ^ 2 + (cy - y r) ^ 2)) fwhm.

(** ** Names for the parts of the grid

    The cell of row [j] and column [i] of the lattice anchored at the upper
    left corner [(min_x, max_y)], with the coordinates as [np.arange] lists
    them, and the lattice of [rows * cols] cells in row-major order. *)
Definition lattice_cell (min_x max_y grid_size : R) (j i : nat) : Polygon :=
  shapely_box (min_x + INR i * grid_size) (max_y + INR j * - grid_size)
              (min_x + INR (i + 1) * grid_size)
              (max_y + INR (j + 1) * - grid_size).

Definition lattice (min_x max_y grid_size : R) (rows cols : nat)
  : list Polygon :=
  flat_map (fun j => map (lattice_cell min_x max_y grid_size j) (seq 0 cols))
           (seq 0 rows).

(** The number of coordinates [np.arange] lists along an axis of extent
    [extent]: one more than the number of cells. *)
Definition axis_length (extent grid_size : R) : nat :=
  Z.to_nat (ceil (extent / grid_size) + 1).

(** ** Sample inputs *)

(** Two agents of two frames: one at the origin with speed 1, one at
    [(1, 1)] with speed 2. *)
Definition agent_a : row := mkRow 1 0 0 1.
Definition agent_b : row := mkRow 2 1 1 2.

(** The unit square [[0,1] x [0,1]]. *)
Definition unit_square : WalkableArea := mkWalkableArea (0, 0, 1, 1).

(** The centre coordinates of the columns and of the rows of the lattice. *)
Definition grid_center_x (min_x grid_size : R) (cols : nat) : list R :=
  map (fun i => min_x + (INR i + 1 / 2) * grid_size) (seq 0 cols).

Definition grid_center_y (max_y grid_size : R) (rows : nat) : list R :=
  map (fun j => max_y - (INR j + 1 / 2) * grid_size) (seq 0 rows).

(** ** Changes of units

    The table with every speed [s] replaced by [a * s + b]; with every
    position scaled by [lam]. *)
Definition affine_speeds (a b : R) (data : DataFrame) : DataFrame :=
  map (fun r => mkRow (frame r) (x r) (y r) (a * speed r + b)) data.


(** ** The grid builder on binary64 (src/helpers/speed_profile.py, lines 75-106)

    The counts [rows] and [cols] of [get_grid_cells] are lengths of
    [np.arange] arrays, and numpy takes such a length from a quotient of
    doubles.  In this module a float is a binary64 number of the kernel
    ([PrimFloat.float], with the IEEE 754 operations rounding to nearest
    even), so that the grid builder computes here what it computes in the
    program.  The bounds and [grid_size] are Python floats. *)
Module Float64.

Import PrimFloat.
#[local] Set Warnings "-inexact-float".

(** The exceptions of [np.arange]: the division by a zero step
    ([ZeroDivisionError]), a NaN length ([ValueError]: cannot compute
    length) and a length outside the range of [npy_intp] ([ValueError]:
    maximum allowed size exceeded). *)
Inductive py_exn : Type :=
| ZeroDivisionError
| CannotComputeLength
| MaximumSizeExceeded.

Inductive outcome (A : Type) : Type :=
| Returns (a : A)
| Raises (e : py_exn).

Arguments Returns {A} a.
Arguments Raises {A} e.

(** The ceiling of a finite double as an integer; none for an infinity or
    NaN.  A double is [+/- m * 2 ^ e]. *)
Definition npy_ceil (v : float) : option Z :=
  match FloatOps.Prim2SF v with
  | SpecFloat.S754_zero _ => Some 0%Z
  | SpecFloat.S754_finite s m e =>
      let n := if s then Z.neg m else Z.pos m in
      Some (if (0 <=? e)%Z then n * 2 ^ e else - (- n / 2 ^ (- e)))%Z
  | _ => None
  end.

(** An array index as a double. *)
Definition of_index (i : nat) : float := of_uint63 (Uint63.of_Z (Z.of_nat i)).

(** The length of [np.arange(start, stop, step)]: the ceiling of the double
    [(stop - start) / step].  Where that quotient is zero although
    [stop - start] is not (an underflow, or an infinite step), numpy sets the
    length to 0 or 1 by the sign of the quotient. *)
Definition arange_length (start stop step : float) : outcome Z :=
  if is_zero step then Raises ZeroDivisionError
  else
    let next := (stop - start)%float in
    let val := (next / step)%float in
    match npy_ceil val with
    | None => Raises (if is_nan val then CannotComputeLength
                      else MaximumSizeExceeded)
    | Some len =>
        if ((len <? - 2 ^ 63) || (2 ^ 63 <? len))%Z
        then Raises MaximumSizeExceeded
        else if is_zero val && negb (is_zero next)
        then Returns (if get_sign val then 0 else 1)%Z
        else Returns len
    end.

(** The element of index [i]: [start], then [start + step], then
    [start + i * delta] for [delta = (start + step) - start], each operation
    rounded. *)
Definition coordinate (start step : float) (i : nat) : float :=
  match i with
  | O => start
  | 1%nat => (start + step)%float
  | _ => (start + of_index i * ((start + step) - start))%float
  end.

(** [np.arange(start, stop, step)]: no element when the length is not
    positive.  (That an array may not fit in the memory is not modelled.) *)
Definition arange (start stop step : float) : outcome (list float) :=
  match arange_length start stop step with
  | Raises e => Raises e
  | Returns len => Returns (map (coordinate start step) (range len))
  end.

Record Polygon : Type := shapely_box
  { box_x0 : float; box_y0 : float; box_x1 : float; box_y1 : float }.

Record Point : Type := mkPoint { get_x : float; get_y : float }.

(** [shapely.centroid] of a rectangle: its midpoint.  (GEOS computes the
    centroid by its own sequence of operations, which is not followed
    here.) *)
Definition shapely_centroid (b : Polygon) : Point :=
  mkPoint ((box_x0 b + box_x1 b) / 2)%float ((box_y0 b + box_y1 b) / 2)%float.

Record WalkableArea : Type := mkWalkableArea
  { bounds : float * float * float * float }.

Definition get_grid_cells (walkable_area : WalkableArea) (grid_size : float)
  : outcome (list Polygon * Z * Z) :=
  let '(min_x, min_y, max_x, max_y) := bounds walkable_area in
  match arange min_x (max_x + grid_size)%float grid_size with
  | Raises e => Raises e
  | Returns x_coords =>
      match arange max_y (min_y - grid_size)%float (- grid_size)%float with
      | Raises e => Raises e
      | Returns y_coords =>
          let grid_cells :=
            flat_map (fun j =>
              map (fun i =>
                     shapely_box (nth i x_coords 0%float)
                                 (nth j y_coords 0%float)
                                 (nth (i + 1) x_coords 0%float)
                                 (nth (j + 1) y_coords 0%float))
                  (range (Z.of_nat (length x_coords) - 1)))
              (range (Z.of_nat (length y_coords) - 1)) in
          Returns (grid_cells,
                   (Z.of_nat (length y_coords) - 1)%Z,
                   (Z.of_nat (length x_coords) - 1)%Z)
      end
  end.

(** *** Names for the parts of the grid

    The cell of row [j] and column [i] between the coordinates that
    [np.arange] lists from [min_x] and from [max_y], and the lattice of
    [rows * cols] cells in row-major order. *)
Definition lattice_cell (min_x max_y grid_size : float) (j i : nat)
  : Polygon :=
  shapely_box (coordinate min_x grid_size i)
              (coordinate max_y (- grid_size) j)
              (coordinate min_x grid_size (i + 1))
              (coordinate max_y (- grid_size) (j + 1)).

Definition lattice (min_x max_y grid_size : float) (rows cols : nat)
  : list Polygon :=
  flat_map (fun j => map (lattice_cell min_x max_y grid_size j) (seq 0 cols))
           (seq 0 rows).

(** *** What the specification says, for comparison

    The exact value of a finite double, and the number of cells the
    specification gives an axis: the ceiling of the exact quotient
    [(hi - lo) / grid_size]. *)
Definition exact (v : float) : option QArith_base.Q :=
  match FloatOps.Prim2SF v with
  | SpecFloat.S754_zero _ => Some (QArith_base.inject_Z 0)
  | SpecFloat.S754_finite s m e =>
      Some (QArith_base.Qmult
              (QArith_base.inject_Z (if s then Z.neg m else Z.pos m))
              (QArith_base.Qpower (QArith_base.inject_Z 2) e))
  | _ => None
  end.

Definition spec_axis_count (lo hi grid_size : float) : option Z :=
  match exact lo, exact hi, exact grid_size with
  | Some a, Some b, Some g =>
      Some (Qround.Qceiling (QArith_base.Qdiv (QArith_base.Qminus b a) g))
  | _, _, _ => None
  end.

(** *** Sample inputs

    The unit square and the square [[1,2] x [1,2]]. *)
Definition unit_square : WalkableArea := mkWalkableArea (0, 0, 1, 1)%float.

Definition square_1_2 : WalkableArea := mkWalkableArea (1, 1, 2, 2)%float.

End Float64.

(** * Trajectory preparation (src/tabs/animation_tab.py)

    The pure parts of the animation tab: [degrees_to_meters], [adjust_time]
    and [compute_pedestrian_velocity].  A table is the list of its rows in
    the order of the default index [0, 1, ...] that [pd.read_csv] gives it;
    of a row only the columns these functions read or write are kept.
    Finite floats are real numbers, as above; the columns that pandas fills
    with NaN or with an infinity hold an [xfloat]. *)
Module AnimationTab.

Inductive py_exn : Type :=
| KeyError.               (* df["t/s"][0] on a table without row 0 *)

Inductive outcome (A : Type) : Type :=
| Returns (a : A)
| Raises (e : py_exn).

Arguments Returns {A} a.
Arguments Raises {A} e.

(** A float that may be NaN or an infinity. *)
Inductive xfloat : Type :=
| Fin (r : R)
| PInf
| NInf
| NaN.

(** [a - b], [a + b], [a ** 2], [np.sqrt(a)] and [a / b] as IEEE 754 defines
    them on the special values (on finite operands: the real operation, and
    for the quotient by 0 an infinity of the sign of the numerator, or NaN for
    0 / 0). *)
Definition xf_sub (a b : xfloat) : xfloat :=
  match a, b with
  | NaN, _ | _, NaN => NaN
  | Fin p, Fin q => Fin (p - q)
  | PInf, PInf | NInf, NInf => NaN
  | PInf, _ | _, NInf => PInf
  | NInf, _ | _, PInf => NInf
  end.

Definition xf_add (a b : xfloat) : xfloat :=
  match a, b with
  | NaN, _ | _, NaN => NaN
  | Fin p, Fin q => Fin (p + q)
  | PInf, NInf | NInf, PInf => NaN
  | PInf, _ | _, PInf => PInf
  | NInf, _ | _, NInf => NInf
  end.

Definition xf_square (a : xfloat) : xfloat :=
  match a with
  | Fin p => Fin (p ^ 2)
  | PInf | NInf => PInf
  | NaN => NaN
  end.

Definition xf_sqrt (a : xfloat) : xfloat :=
  match a with
  | Fin p => if Rlt_dec p 0 then NaN else Fin (sqrt p)
  | PInf => PInf
  | NInf | NaN => NaN
  end.

Definition xf_div (a b : xfloat) : xfloat :=
  match a, b with
  | NaN, _ | _, NaN => NaN
  | Fin p, Fin q =>
      if Req_dec_T q 0
      then (if Rlt_dec 0 p then PInf else if Rlt_dec p 0 then NInf else NaN)
      else Fin (p / q)
  | Fin _, (PInf | NInf) => Fin 0
  | (PInf | NInf), (PInf | NInf) => NaN
  | PInf, Fin q => if Rlt_dec q 0 then NInf else PInf
  | NInf, Fin q => if Rlt_dec q 0 then PInf else NInf
  end.

(** [np.rint]: the nearest integer, a half going to the even neighbour. *)
Definition np_rint (r : R) : Z :=
  let floor := (up r - 1)%Z in
  if Rlt_dec (r - IZR floor) (1 / 2) then floor
  else if Rlt_dec (1 / 2) (r - IZR floor) then (floor + 1)%Z
  else if Z.even floor then floor else (floor + 1)%Z.

(** [Series.round(decimals)] on a finite value: scale, [np.rint], scale
    back.  NaN and the infinities are left as they are. *)
Definition np_round (decimals : nat) (r : R) : R :=
  IZR (np_rint (r * 10 ^ decimals)) / 10 ^ decimals.

Definition xf_round (decimals : nat) (a : xfloat) : xfloat :=
  match a with
  | Fin p => Fin (np_round decimals p)
  | _ => a
  end.

(** [Series.fillna(v)] and [Series.replace([np.inf, -np.inf], v)] on one
    value. *)
Definition fillna (v : R) (a : xfloat) : xfloat :=
  match a with
  | NaN => Fin v
  | _ => a
  end.

Definition replace_inf (v : R) (a : xfloat) : xfloat :=
  match a with
  | PInf | NInf => Fin v
  | _ => a
  end.

(** [np.radians]. *)
Definition np_radians (degrees : R) : R := degrees * (PI / 180).

(** The source names the radius [R]; here [R] is the type of the reals. *)
Definition degrees_to_meters (lat lon : R) : R * R :=
  let R_earth := 6371000 in
  let lat_rad := np_radians lat in
  let lon_rad := np_radians lon in
  let x := R_earth * lon_rad * cos lat_rad in
  let y := R_earth * lat_rad in
  (x, y).

(** A row of the trajectory table: the columns ["id"], ["t/s"],
    ["lon_wgs84"] and ["lat_wgs84"]. *)
Record traj : Type := mkTraj
  { id : Z; t_s : R; lon_wgs84 : R; lat_wgs84 : R }.

Definition adjust_time (df : list traj) : outcome (list traj) :=
  match df with
  | [] => Raises KeyError
  | row0 :: _ =>
      let shifted :=
        map (fun r => mkTraj (id r) (t_s r - t_s row0)
                             (lon_wgs84 r) (lat_wgs84 r)) df in
      Returns (map (fun r => mkTraj (id r) (np_round 1 (t_s r))
                                    (lon_wgs84 r) (lat_wgs84 r)) shifted)
  end.

(** [df.sort_values(by=["id", "t/s"])]: a stable sort by identifier, then
    by time. *)
Definition key_leb (a b : Z * R) : bool :=
  (fst a <? fst b)%Z
  || ((fst a =? fst b)%Z && if Rle_dec (snd a) (snd b) then true else false).

Section SortValues.

Context {A : Type} (key : A -> Z * R).

Fixpoint insert_row (r : A) (sorted : list A) : list A :=
  match sorted with
  | [] => [r]
  | h :: t =>
      if key_leb (key r) (key h) then r :: sorted else h :: insert_row r t
  end.

Definition sort_values (df : list A) : list A :=
  fold_right insert_row [] df.

(** [df.groupby("id")[column].diff()]: each value minus the value of the
    previous row of the same group, NaN on the first row of a group.
    [previous] holds the rows already passed, the latest first. *)
Fixpoint last_of_group (k : Z) (previous : list A) : option A :=
  match previous with
  | [] => None
  | h :: t => if (fst (key h) =? k)%Z then Some h else last_of_group k t
  end.

Fixpoint groupby_diff_from (previous df : list A) (column : A -> R)
  : list xfloat :=
  match df with
  | [] => []
  | r :: rest =>
      match last_of_group (fst (key r)) previous with
      | Some p => Fin (column r - column p)
      | None => NaN
      end :: groupby_diff_from (r :: previous) rest column
  end.

Definition groupby_diff (df : list A) (column : A -> R) : list xfloat :=
  groupby_diff_from [] df column.

End SortValues.

(** A row of the table [compute_pedestrian_velocity] returns. *)
Record velocity_row : Type := mkVelocityRow
  { v_id : Z; v_t_s : R; v_lon_wgs84 : R; v_lat_wgs84 : R;
    x_meters : R; y_meters : R;
    delta_x : xfloat; delta_y : xfloat; delta_t : xfloat;
    distance : xfloat; velocity : xfloat;
    Pedestrian : String.string }.

(** The table after the first two statements: the metre columns added, the
    rows sorted. *)
Definition with_meters (df : list traj) : list (traj * (R * R)) :=
  map (fun r => (r, degrees_to_meters (lat_wgs84 r) (lon_wgs84 r))) df.

Definition traj_key (r : traj * (R * R)) : Z * R := (id (fst r), t_s (fst r)).

Definition velocity_of (d_x d_y d_t : xfloat) : xfloat * xfloat :=
  let dist := xf_sqrt (xf_add (xf_square d_x) (xf_square d_y)) in
  let v := xf_div dist d_t in
  let v := xf_round 3 v in
  let v := fillna 0 v in
  let v := replace_inf 0 v in
  (dist, v).

(** The table returned for a table [df] with at least one row.  (On a table
    without rows the program does not get here: [adjust_time] has raised.) *)
Definition compute_pedestrian_velocity (df : list traj) : list velocity_row :=
  let df := sort_values traj_key (with_meters df) in
  let d_x := groupby_diff traj_key df (fun r => fst (snd r)) in
  let d_y := groupby_diff traj_key df (fun r => snd (snd r)) in
  let d_t := groupby_diff traj_key df (fun r => t_s (fst r)) in
  map (fun q : (traj * (R * R)) * (xfloat * (xfloat * xfloat)) =>
         let r := fst (fst q) in
         let d_x := fst (snd q) in
         let d_y := fst (snd (snd q)) in
         let d_t := snd (snd (snd q)) in
         mkVelocityRow
           (id r) (t_s r)
           (np_round 7 (lon_wgs84 r)) (np_round 7 (lat_wgs84 r))
           (fst (snd (fst q))) (snd (snd (fst q)))
           d_x d_y d_t
           (fst (velocity_of d_x d_y d_t)) (snd (velocity_of d_x d_y d_t))
           (String.append "Pedestrian "%string
              (DecimalString.NilZero.string_of_int (Z.to_int (id r)))))
      (combine df (combine d_x (combine d_y d_t))).

(** The same table built row by row: the row for [r], given the previous
    row [p] of its group if there is one. *)
Definition velocity_row_of (r : traj * (R * R)) (p : option (traj * (R * R)))
  : velocity_row :=
  let diff (column : traj * (R * R) -> R) :=
    match p with
    | Some q => Fin (column r - column q)
    | None => NaN
    end in
  let d_x := diff (fun r => fst (snd r)) in
  let d_y := diff (fun r => snd (snd r)) in
  let d_t := diff (fun r => t_s (fst r)) in
  mkVelocityRow
    (id (fst r)) (t_s (fst r))
    (np_round 7 (lon_wgs84 (fst r))) (np_round 7 (lat_wgs84 (fst r)))
    (fst (snd r)) (snd (snd r))
    d_x d_y d_t
    (fst (velocity_of d_x d_y d_t)) (snd (velocity_of d_x d_y d_t))
    (String.append "Pedestrian "%string
       (DecimalString.NilZero.string_of_int (Z.to_int (id (fst r))))).

Fixpoint velocity_rows_from (previous df : list (traj * (R * R)))
  : list velocity_row :=
  match df with
  | [] => []
  | r :: rest =>
      velocity_row_of r (last_of_group traj_key (id (fst r)) previous)
      :: velocity_rows_from (r :: previous) rest
  end.

End AnimationTab.

(** * The camera map (map_tab.py)

    The camera file loader [load_cameras_from_json] and the choice of the
    video in [main].  A Python [dict] with string keys is the list of its
    items in insertion order, the keys distinct; a string is the list of its
    characters.  What the file system and the widgets answer is an input:
    the result of opening and parsing the file, and the tooltip of the last
    object clicked on the map. *)
Module MapTab.

#[local] Unset Elimination Schemes.
Inductive json : Type :=
| JNull
| JBool (b : bool)
| JInt (z : Z)
| JFloat (r : R)
| JString (s : String.string)
| JArray (items : list json)
| JObject (members : list (String.string * json)).
#[local] Set Elimination Schemes.

Definition dict (V : Type) : Type := list (String.string * V).

(** [d.get(k)] and [d[k] = v]. *)
Fixpoint dict_get {V : Type} (k : String.string) (d : dict V) : option V :=
  match d with
  | [] => None
  | (k', v) :: t => if String.eqb k' k then Some v else dict_get k t
  end.

Fixpoint dict_set {V : Type} (k : String.string) (v : V) (d : dict V)
  : dict V :=
  match d with
  | [] => [(k, v)]
  | (k', v') :: t =>
      if String.eqb k' k then (k', v) :: t else (k', v') :: dict_set k v t
  end.

(** The dataclass.  Its annotations are not checked when it is built: the
    loader stores whatever JSON values the file holds. *)
Record Camera : Type := mkCamera
  { location : R * R; url : json; name : json; field : json }.

(** The exceptions caught for one camera entry, as [st.error] reports them:
    a [KeyError] with its key, or any other exception. *)
Inductive camera_exn : Type :=
| MissingKey (key : String.string)
| TypeError                       (* subscripting or iterating a non-container *)
| LocationNotTwo                  (* "Location must be a tuple of two floats." *)
| LocationNotFloats.              (* "Location elements must be floats." *)

Inductive st_error : Type :=
| FileNotFoundMessage
| JSONDecodeMessage
| MissingKeyMessage (key : String.string)
| ProcessingMessage (e : camera_exn).

Inductive py_exn : Type :=
| AttributeError          (* data.items() on a value that is no dict *)
| KeyError (key : String.string)
| FoliumError.            (* whatever folium raises while the map is built *)

Inductive outcome (A : Type) : Type :=
| Returns (a : A)
| Raises (e : py_exn).

Arguments Returns {A} a.
Arguments Raises {A} e.

(** [tuple(v)]: the items of an array, the characters of a string, the keys
    of an object; anything else is not iterable. *)
Definition py_tuple (v : json) : option (list json) :=
  match v with
  | JArray items => Some items
  | JString s =>
      Some (map (fun c => JString (String.String c String.EmptyString))
                (String.list_ascii_of_string s))
  | JObject members => Some (map (fun kv => JString (fst kv)) members)
  | _ => None
  end.

(** [info[key]] for the keys read after the location. *)
Definition subscript (info : dict json) (key : String.string)
  : camera_exn + json :=
  match dict_get key info with
  | Some v => inr v
  | None => inl (MissingKey key)
  end.

(** The body of the [try] for one entry. *)
Definition camera_of_info (info : json) : camera_exn + Camera :=
  match info with
  | JObject members =>
      match subscript members "location"%string with
      | inl e => inl e
      | inr v =>
          match py_tuple v with
          | None => inl TypeError
          | Some [a; b] =>
              match a, b with
              | JFloat lat, JFloat lon =>
                  match subscript members "url"%string with
                  | inl e => inl e
                  | inr u =>
                      match subscript members "name"%string with
                      | inl e => inl e
                      | inr n =>
                          match subscript members "field"%string with
                          | inl e => inl e
                          | inr f => inr (mkCamera (lat, lon) u n f)
                          end
                      end
                  end
              | _, _ => inl LocationNotFloats
              end
          | Some _ => inl LocationNotTwo
          end
      end
  | _ => inl TypeError
  end.

Definition message_of (e : camera_exn) : st_error :=
  match e with
  | MissingKey key => MissingKeyMessage key
  | _ => ProcessingMessage e
  end.

(** What [open] and [json.load] gave: one of the two exceptions the loader
    catches, or the parsed value.  (Any other exception of [open] leaves the
    loader as it is and is not modelled.) *)
Inductive file_read : Type :=
| FileNotFoundError
| JSONDecodeError
| Parsed (data : json).

(** The loop over [data.items()]: the cameras loaded so far and the errors
    shown so far. *)
Fixpoint load_entries (entries : list (String.string * json))
  (cameras : dict Camera) (errors : list st_error)
  : dict Camera * list st_error :=
  match entries with
  | [] => (cameras, errors)
  | (key, info) :: rest =>
      match camera_of_info info with
      | inr camera => load_entries rest (dict_set key camera cameras) errors
      | inl e => load_entries rest cameras (errors ++ [message_of e])
      end
  end.

(** The result: the dictionary returned and the errors shown on the page. *)
Definition load_cameras_from_json (file : file_read)
  : outcome (dict Camera * list st_error) :=
  match file with
  | FileNotFoundError => Returns ([], [FileNotFoundMessage])
  | JSONDecodeError => Returns ([], [JSONDecodeMessage])
  | Parsed (JObject members) => Returns (load_entries members [] [])
  | Parsed _ => Raises AttributeError
  end.

Definition tile_layers : dict String.string :=
  [("Open Street Map", "openstreetmap");
   ("CartoDB Positron", "CartoDB positron");
   ("CartoDB Dark_Matter", "CartoDB dark_matter")]%string.

(** [s.split(":")[0]]: the part of [s] before its first colon. *)
Fixpoint before_colon (s : String.string) : String.string :=
  match s with
  | String.EmptyString => String.EmptyString
  | String.String c t =>
      if Ascii.eqb c ":"%char then String.EmptyString
      else String.String c (before_colon t)
  end.

(** The tooltip [create_map] gives the marker of a camera,
    [f"{key}: {camera.name}"]; [format] is Python's [str] on the name. *)
Definition marker_tooltip (format : json -> String.string)
  (key : String.string) (camera : Camera) : String.string :=
  String.append key (String.append ": " (format (name camera))).

(** The calls [main] makes on the right column, in order: [placeholder.info],
    [c2.video] and [placeholder.error] (a later call on the placeholder
    replaces what the earlier one showed). *)
Inductive ui_call : Type :=
| Info (text : String.string)
| Video (source : json)
| Error (text : String.string).

(** [main], given what the libraries answer: [map_built], the outcome of
    [create_map] (folium checks the camera fields while it builds the map,
    and the map goes to the widget only), and the tooltip of the last object
    clicked ([map_data.get("last_object_clicked_tooltip")]). *)
Definition main (cameras : dict Camera) (selected_layer : String.string)
  (map_built : outcome unit)
  (last_object_clicked_tooltip : option String.string)
  : outcome (list ui_call) :=
  match dict_get selected_layer tile_layers with
  | None => Raises (KeyError selected_layer)
  | Some tile_layer =>
      match map_built with
      | Raises e => Raises e
      | Returns _ =>
      match last_object_clicked_tooltip with
      | Some video_name =>
          if String.eqb video_name ""
          then Returns [Error "No camera selected."]
          else
            match dict_get (before_colon video_name) cameras with
            | Some camera => Returns [Info video_name; Video (url camera)]
            | None =>
                Returns [Info video_name;
                         Error (String.append "No video linked to "
                                  (String.append video_name "."))]
            end
      | None => Returns [Error "No camera selected."]
      end
      end
  end%string.

End MapTab.

(** * The primitives on small inputs *)

Example sorted_keys_sample :
  sorted_keys [3; 1; 3; 2; 1]%Z = [1; 2; 3]%Z.
Proof. reflexivity. Qed.

Example first_seen_keys_sample :
  first_seen_keys [3; 1; 3; 2; 1]%Z = [3; 1; 2]%Z.
Proof. reflexivity. Qed.

Example groupby_sample :
  groupby [agent_b; agent_a; agent_b]
  = [(1%Z, [agent_a]); (2%Z, [agent_b; agent_b])].
Proof. reflexivity. Qed.

Example slice_step_sample :
  slice_step 2 [0; 1; 2; 3; 4]%nat = Ok [0; 2; 4]%nat
  /\ slice_step (-2) [0; 1; 2; 3; 4; 5]%nat = Ok [5; 3; 1]%nat
  /\ slice_step 0 [0; 1; 2]%nat = Err SliceStepZero.
Proof. repeat split. Qed.

Example slice_to_sample :
  slice_to 2 [0; 1; 2]%nat = [0; 1]%nat
  /\ slice_to (-1) [0; 1; 2]%nat = [0; 1]%nat.
Proof. split; reflexivity. Qed.

Example reshape_sample :
  reshape 2 3 [[1; 2]; [3; 4]; [5; 6]] = Ok [[1; 2; 3]; [4; 5; 6]]
  /\ reshape 2 2 [[1; 2]; [3; 4]; [5; 6]] = Err ReshapeSizeMismatch.
Proof. split; reflexivity. Qed.

Example np_T_sample :
  np_T 2 [[1; 2]; [3; 4]; [5; 6]] = [[1; 3; 5]; [2; 4; 6]].
Proof. reflexivity. Qed.

(** * Lists and sums *)

Section ListFacts.

Context {A B : Type}.

Lemma map_seq_nth (l : list A) (d : A) (h : nat -> B) (g : A -> B) :
  (forall i, (i < length l)%nat -> h i = g (nth i l d)) ->
  map h (seq 0 (length l)) = map g l.
Proof.
  revert h. induction l as [|a l IH]; intros h Hh; [reflexivity|].
  cbn [length seq map]. rewrite (Hh 0%nat) by (cbn; lia). cbn [nth]. f_equal.
  rewrite <- seq_shift, map_map. apply IH.
  intros i Hi. rewrite (Hh (S i)) by (cbn; lia). reflexivity.
Qed.

Lemma combine_map_same (f : A -> R) (g : A -> R) (l : list A) :
  combine (map f l) (map g l) = map (fun a => (f a, g a)) l.
Proof. induction l as [|a l IH]; cbn; [|rewrite IH]; reflexivity. Qed.

End ListFacts.

Lemma np_sum_nil : np_sum [] = 0.
Proof. reflexivity. Qed.

Lemma np_sum_cons (a : R) (l : list R) : np_sum (a :: l) = a + np_sum l.
Proof. reflexivity. Qed.

Ltac sum_step := cbn [map]; rewrite ?np_sum_cons, ?np_sum_nil.

Lemma np_sum_map_div (s : R) (l : list R) :
  np_sum (map (fun w => w / s) l) = np_sum l / s.
Proof.
  induction l as [|a l IH]; sum_step.
  - unfold Rdiv. ring.
  - rewrite IH. unfold Rdiv. ring.
Qed.

Lemma np_sum_map_scale {A : Type} (c : R) (f : A -> R) (l : list A) :
  np_sum (map (fun a => c * f a) l) = c * np_sum (map f l).
Proof. induction l as [|a l IH]; sum_step; [|rewrite IH]; ring. Qed.

Lemma np_sum_Permutation (l l' : list R) :
  Permutation l l' -> np_sum l = np_sum l'.
Proof.
  induction 1 as [| a l l' _ IH | a b l | l l' l'' _ IH1 _ IH2];
    rewrite ?np_sum_cons.
  - reflexivity.
  - now rewrite IH.
  - ring.
  - now rewrite IH1.
Qed.

Lemma np_sum_pos {A : Type} (f : A -> R) (l : list A) :
  l <> [] -> (forall a, 0 < f a) -> 0 < np_sum (map f l).
Proof.
  intros Hl Hf. destruct l as [|a l]; [congruence|]. clear Hl. sum_step.
  assert (0 <= np_sum (map f l)) as H0.
  { induction l as [|b l IH]; sum_step; [lra|]. specialize (Hf b). lra. }
  specialize (Hf a). lra.
Qed.

(** A sum with non-negative coefficients lies between the bounds of its
    terms, scaled by the sum of the coefficients. *)
Lemma np_sum_weighted_bounds {A : Type} (p s : A -> R) (lo hi : R) (l : list A) :
  (forall a, In a l -> 0 <= p a) ->
  (forall a, In a l -> lo <= s a <= hi) ->
  lo * np_sum (map p l) <= np_sum (map (fun a => p a * s a) l)
    <= hi * np_sum (map p l).
Proof.
  induction l as [|a l IH]; intros Hp Hs; sum_step; [lra|].
  destruct IH as [IHlo IHhi].
  - intros b Hb. apply Hp. now right.
  - intros b Hb. apply Hs. now right.
  - pose proof (Hp a (or_introl eq_refl)) as Hpa.
    pose proof (Hs a (or_introl eq_refl)) as [Hlo Hhi].
    split; nra.
Qed.

Lemma np_min_le (l : list R) (v : R) : In v l -> np_min l <= v.
Proof.
  destruct l as [|a t]; [contradiction|]. cbn [np_min].
  revert a v. induction t as [|b t IH]; intros a v Hin; cbn.
  - destruct Hin as [->|[]]. lra.
  - destruct Hin as [->|[->|Hin]].
    + eapply Rle_trans; [apply Rmin_r|]. apply IH. now left.
    + apply Rmin_l.
    + eapply Rle_trans; [apply Rmin_r|]. apply IH. now right.
Qed.

Lemma np_max_ge (l : list R) (v : R) : In v l -> v <= np_max l.
Proof.
  destruct l as [|a t]; [contradiction|]. cbn [np_max].
  revert a v. induction t as [|b t IH]; intros a v Hin; cbn.
  - destruct Hin as [->|[]]. lra.
  - destruct Hin as [->|[->|Hin]].
    + eapply Rle_trans; [|apply Rmax_r]. apply IH. now left.
    + apply Rmax_l.
    + eapply Rle_trans; [|apply Rmax_r]. apply IH. now right.
Qed.

(** * The Gaussian kernel *)

Lemma gaussian_split (d fwhm : R) :
  _compute_gaussian_weights d fwhm = gaussian_peak fwhm * gaussian_shape d fwhm.
Proof. reflexivity. Qed.

Lemma gaussian_shape_pos (d fwhm : R) : 0 < gaussian_shape d fwhm.
Proof. apply exp_pos. Qed.

Lemma sqrt_2ln2_pos : 0 < sqrt (2 * ln 2).
Proof.
  apply sqrt_lt_R0.
  pose proof (ln_increasing 1 2 ltac:(lra) ltac:(lra)) as H.
  rewrite ln_1 in H. lra.
Qed.

Lemma sqrt_2PI_pos : 0 < sqrt (2 * PI).
Proof. apply sqrt_lt_R0. pose proof PI_RGT_0. lra. Qed.

Lemma gaussian_peak_nonzero (fwhm : R) : fwhm <> 0 -> gaussian_peak fwhm <> 0.
Proof.
  intros Hf. unfold gaussian_peak.
  pose proof sqrt_2ln2_pos as H1. pose proof sqrt_2PI_pos as H2.
  assert (fwhm / (2 * sqrt (2 * ln 2)) * sqrt (2 * PI) <> 0) as Hd.
  { apply Rmult_integral_contrapositive_currified; [|lra].
    unfold Rdiv. apply Rmult_integral_contrapositive_currified; [exact Hf|].
    apply Rinv_neq_0_compat. lra. }
  unfold Rdiv. rewrite Rmult_1_l. now apply Rinv_neq_0_compat.
Qed.

Lemma gaussian_peak_zero : gaussian_peak 0 = 0.
Proof.
  unfold gaussian_peak, Rdiv. rewrite !Rmult_0_l, Rinv_0. ring.
Qed.

Lemma gaussian_peak_opp (fwhm : R) : gaussian_peak (- fwhm) = - gaussian_peak fwhm.
Proof.
  unfold gaussian_peak, Rdiv.
  replace (- fwhm * / (2 * sqrt (2 * ln 2)) * sqrt (2 * PI))
    with (- (fwhm * / (2 * sqrt (2 * ln 2)) * sqrt (2 * PI))) by ring.
  rewrite Rinv_opp. ring.
Qed.

Lemma gaussian_shape_opp (d fwhm : R) :
  gaussian_shape d (- fwhm) = gaussian_shape d fwhm.
Proof.
  unfold gaussian_shape. f_equal. f_equal. f_equal. unfold Rdiv. ring.
Qed.

Lemma gaussian_opp (d fwhm : R) :
  _compute_gaussian_weights d (- fwhm) = - _compute_gaussian_weights d fwhm.
Proof.
  rewrite !gaussian_split, gaussian_peak_opp, gaussian_shape_opp. ring.
Qed.

Lemma gaussian_nonzero (d fwhm : R) :
  fwhm <> 0 -> _compute_gaussian_weights d fwhm <> 0.
Proof.
  intros Hf. rewrite gaussian_split.
  apply Rmult_integral_contrapositive_currified.
  - now apply gaussian_peak_nonzero.
  - pose proof (gaussian_shape_pos d fwhm). lra.
Qed.

(** * The engine, cell by cell *)

Lemma weights_agents (fd : DataFrame) (fwhm cx cy : R) :
  weights fd fwhm cx cy = map (agent_weight fwhm cx cy) fd.
Proof. unfold weights, distance. now rewrite map_map. Qed.

Lemma agent_weight_split (fwhm cx cy : R) (r : row) :
  agent_weight fwhm cx cy r = gaussian_peak fwhm * agent_shape fwhm cx cy r.
Proof. reflexivity. Qed.

Lemma weights_sum_split (fd : DataFrame) (fwhm cx cy : R) :
  np_sum (weights fd fwhm cx cy)
  = gaussian_peak fwhm * np_sum (map (agent_shape fwhm cx cy) fd).
Proof.
  rewrite weights_agents, <- np_sum_map_scale. reflexivity.
Qed.

Lemma shape_sum_pos (fd : DataFrame) (fwhm cx cy : R) :
  fd <> [] -> 0 < np_sum (map (agent_shape fwhm cx cy) fd).
Proof.
  intros Hfd. apply np_sum_pos; [exact Hfd|].
  intros r. apply gaussian_shape_pos.
Qed.

(** A nonzero weight sum needs an agent and a nonzero peak. *)
Lemma weights_sum_nonzero_inv (fd : DataFrame) (fwhm cx cy : R) :
  np_sum (weights fd fwhm cx cy) <> 0 -> fd <> [] /\ gaussian_peak fwhm <> 0.
Proof.
  intros HS. split.
  - intros ->. apply HS. reflexivity.
  - intros Hp. apply HS. rewrite weights_sum_split, Hp. ring.
Qed.

Lemma weights_sum_nonzero (fd : DataFrame) (fwhm cx cy : R) :
  fd <> [] -> gaussian_peak fwhm <> 0 -> np_sum (weights fd fwhm cx cy) <> 0.
Proof.
  intros Hfd Hp. rewrite weights_sum_split.
  apply Rmult_integral_contrapositive_currified; [exact Hp|].
  pose proof (shape_sum_pos fd fwhm cx cy Hfd). lra.
Qed.

(** The weighted speed of a cell as one sum over the agents. *)
Lemma weighted_speed_agents (fd : DataFrame) (fwhm cx cy : R) :
  weighted_speed fd fwhm cx cy
  = np_sum (map (fun r => agent_weight fwhm cx cy r
                          / np_sum (weights fd fwhm cx cy) * speed r) fd).
Proof.
  unfold weighted_speed, tensordot, normalized_weights.
  rewrite weights_agents, map_map, combine_map_same, map_map. reflexivity.
Qed.

(** With a nonzero weight sum the peak cancels: the normalized weight of an
    agent is its share of the shape factors. *)
Lemma normalized_weight_share (fd : DataFrame) (fwhm cx cy : R) (r : row) :
  np_sum (weights fd fwhm cx cy) <> 0 ->
  agent_weight fwhm cx cy r / np_sum (weights fd fwhm cx cy)
  = agent_shape fwhm cx cy r / np_sum (map (agent_shape fwhm cx cy) fd).
Proof.
  intros HS. destruct (weights_sum_nonzero_inv _ _ _ _ HS) as [Hfd Hp].
  pose proof (shape_sum_pos fd fwhm cx cy Hfd) as HE.
  rewrite weights_sum_split, agent_weight_split. field. split; lra.
Qed.

(** The engine's grid, read by rows: the transposition undone. *)
Lemma engine_by_rows (fd : DataFrame) (center_x center_y : list R) (fwhm : R) :
  _compute_gaussian_weighted_speed_profile fd center_x center_y fwhm
  = map (fun cy => map (fun cx => weighted_speed fd fwhm cx cy) center_x)
        center_y.
Proof.
  unfold _compute_gaussian_weighted_speed_profile, np_T.
  apply map_seq_nth with (d := 0). intros i Hi.
  rewrite map_map. apply map_ext. intros cx.
  rewrite (nth_indep _ 0 (weighted_speed fd fwhm cx 0)) by now rewrite length_map.
  apply map_nth with (f := fun cy => weighted_speed fd fwhm cx cy).
Qed.

Lemma engine_cell_at (fd : DataFrame) (center_x center_y : list R) (fwhm : R)
  (i j : nat) (cx cy : R) :
  nth_error center_y i = Some cy -> nth_error center_x j = Some cx ->
  cell_at (_compute_gaussian_weighted_speed_profile fd center_x center_y fwhm)
          i j
  = Some (weighted_speed fd fwhm cx cy).
Proof.
  intros Hi Hj. rewrite engine_by_rows. unfold cell_at.
  rewrite nth_error_map, Hi. cbn. now rewrite nth_error_map, Hj.
Qed.

(** * The kernel weighting engine *)

(** C1.  The engine has no guard for a zero weight sum and the driver never
    reads [fill_value]: on a frame with no agent every cell of the engine's
    grid is 0 (the empty sum), whatever the fill value, and the driver's
    result is the same for any two fill values. *)
Theorem empty_frame_cells_are_zero_not_fill_value :
  (forall (center_x center_y : list R) (fwhm : R),
     _compute_gaussian_weighted_speed_profile [] center_x center_y fwhm
     = map (fun _ => map (fun _ => 0) center_x) center_y)
  /\ (forall data walkable_area grid_size speed_method gia fwhm
        (fill_value fill_value' : np_float),
        compute_speed_profile data walkable_area grid_size speed_method gia
                              fill_value fwhm
        = compute_speed_profile data walkable_area grid_size speed_method gia
                                fill_value' fwhm).
Proof.
  split.
  - intros center_x center_y fwhm. rewrite engine_by_rows. reflexivity.
  - reflexivity.
Qed.

(** C3.  When some agent of the frame has a nonzero weight at a cell, the
    normalized weights of that cell sum to 1. *)
Theorem normalized_weights_sum_to_one
  (frame_data : DataFrame) (fwhm cx cy : R) :
  (exists w, In w (weights frame_data fwhm cx cy) /\ w <> 0) ->
  np_sum (normalized_weights frame_data fwhm cx cy) = 1.
Proof.
  intros (w & Hin & Hw).
  assert (np_sum (weights frame_data fwhm cx cy) <> 0) as HS.
  { rewrite weights_agents in Hin. apply in_map_iff in Hin.
    destruct Hin as (r & <- & Hr). rewrite agent_weight_split in Hw.
    apply weights_sum_nonzero.
    - intros ->. contradiction.
    - intros Hp. apply Hw. rewrite Hp. ring. }
  unfold normalized_weights. rewrite np_sum_map_div. now field.
Qed.

Lemma normalized_weights_sum_to_one_witness :
  np_sum (normalized_weights [agent_a; agent_b] 1 (1 / 2) (1 / 2)) = 1.
Proof.
  apply (normalized_weights_sum_to_one [agent_a; agent_b] 1 (1 / 2) (1 / 2)).
  exists (agent_weight 1 (1 / 2) (1 / 2) agent_a). split.
  - rewrite weights_agents. left. reflexivity.
  - apply gaussian_nonzero. lra.
Defined.

Lemma single_agent_weighted_speed (a : row) (fwhm cx cy : R) :
  fwhm <> 0 -> weighted_speed [a] fwhm cx cy = speed a.
Proof.
  intros Hf. rewrite weighted_speed_agents, weights_agents. sum_step.
  pose proof (gaussian_nonzero (sqrt ((cx - x a) ^ 2 + (cy - y a) ^ 2)) fwhm Hf)
    as Hw.
  fold (agent_weight fwhm cx cy a) in Hw. field. lra.
Qed.

(** C7.  In a frame with one agent that stands on a cell centre, that cell's
    value is the agent's speed, for every positive [fwhm]. *)
Theorem single_agent_cell_is_its_speed
  (a : row) (center_x center_y : list R) (fwhm : R) (i j : nat) :
  0 < fwhm ->
  nth_error center_y i = Some (y a) ->
  nth_error center_x j = Some (x a) ->
  cell_at (_compute_gaussian_weighted_speed_profile [a] center_x center_y fwhm)
          i j
  = Some (speed a).
Proof.
  intros Hf Hi Hj. rewrite (engine_cell_at _ _ _ _ _ _ _ _ Hi Hj).
  f_equal. apply single_agent_weighted_speed. lra.
Qed.

Lemma single_agent_cell_is_its_speed_witness :
  cell_at (_compute_gaussian_weighted_speed_profile
             [agent_b] [1 / 4; 1] [1; 1 / 4] 3) 0 1
  = Some 2.
Proof.
  apply (single_agent_cell_is_its_speed agent_b [1 / 4; 1] [1; 1 / 4] 3 0 1).
  - lra.
  - reflexivity.
  - reflexivity.
Defined.

Lemma weighted_speed_Permutation (fd fd' : DataFrame) (fwhm cx cy : R) :
  Permutation fd fd' ->
  weighted_speed fd fwhm cx cy = weighted_speed fd' fwhm cx cy.
Proof.
  intros HP. rewrite !weighted_speed_agents.
  assert (np_sum (weights fd fwhm cx cy) = np_sum (weights fd' fwhm cx cy))
    as ->.
  { rewrite !weights_agents. apply np_sum_Permutation.
    now apply Permutation_map. }
  apply np_sum_Permutation. now apply Permutation_map.
Qed.

(** C8.  The engine's grid does not depend on the order of the agent rows:
    any permutation of the rows, a swap of two of them in particular, gives
    the same grid. *)
Theorem engine_agent_order_independent
  (frame_data frame_data' : DataFrame) (center_x center_y : list R) (fwhm : R) :
  Permutation frame_data frame_data' ->
  _compute_gaussian_weighted_speed_profile frame_data center_x center_y fwhm
  = _compute_gaussian_weighted_speed_profile frame_data' center_x center_y fwhm.
Proof.
  intros HP. rewrite !engine_by_rows.
  apply map_ext. intros cy. apply map_ext. intros cx.
  now apply weighted_speed_Permutation.
Qed.

Lemma engine_agent_order_independent_witness :
  _compute_gaussian_weighted_speed_profile
    [agent_a; agent_b] [1 / 4; 3 / 4] [3 / 4; 1 / 4] 1
  = _compute_gaussian_weighted_speed_profile
      [agent_b; agent_a] [1 / 4; 3 / 4] [3 / 4; 1 / 4] 1.
Proof.
  apply (engine_agent_order_independent [agent_a; agent_b] [agent_b; agent_a]).
  apply perm_swap.
Defined.

Lemma weighted_speed_bounds (fd : DataFrame) (fwhm cx cy : R) :
  np_sum (weights fd fwhm cx cy) <> 0 ->
  np_min (map speed fd) <= weighted_speed fd fwhm cx cy
    <= np_max (map speed fd).
Proof.
  intros HS. destruct (weights_sum_nonzero_inv _ _ _ _ HS) as [Hfd _].
  pose proof (shape_sum_pos fd fwhm cx cy Hfd) as HE.
  set (E := np_sum (map (agent_shape fwhm cx cy) fd)) in *.
  rewrite weighted_speed_agents.
  rewrite (map_ext_in
             (fun r => agent_weight fwhm cx cy r
                       / np_sum (weights fd fwhm cx cy) * speed r)
             (fun r => agent_shape fwhm cx cy r / E * speed r))
    by (intros r _; cbv beta; rewrite normalized_weight_share by exact HS;
        reflexivity).
  pose proof (np_sum_weighted_bounds
                (fun r => agent_shape fwhm cx cy r / E) speed
                (np_min (map speed fd)) (np_max (map speed fd)) fd) as HB.
  assert (np_sum (map (fun r => agent_shape fwhm cx cy r / E) fd) = 1) as H1.
  { rewrite <- (map_map (agent_shape fwhm cx cy) (fun s => s / E)).
    rewrite np_sum_map_div. fold E. field. lra. }
  rewrite H1, !Rmult_1_r in HB. apply HB.
  - intros r _. pose proof (gaussian_shape_pos
      (sqrt ((cx - x r) ^ 2 + (cy - y r) ^ 2)) fwhm) as Hs.
    fold (agent_shape fwhm cx cy r) in Hs.
    apply Rlt_le. apply Rdiv_lt_0_compat; lra.
  - intros r Hr. split.
    + apply np_min_le. now apply in_map.
    + apply np_max_ge. now apply in_map.
Qed.

(** C10.  In a frame with at least one agent, a cell whose raw weights have
    a nonzero sum holds a value between the least and the greatest speed of
    the frame. *)
Theorem cell_speed_between_min_and_max
  (frame_data : DataFrame) (center_x center_y : list R) (fwhm : R)
  (i j : nat) (cx cy : R) :
  frame_data <> [] ->
  nth_error center_y i = Some cy ->
  nth_error center_x j = Some cx ->
  np_sum (weights frame_data fwhm cx cy) <> 0 ->
  exists v,
    cell_at (_compute_gaussian_weighted_speed_profile
               frame_data center_x center_y fwhm) i j = Some v
    /\ np_min (map speed frame_data) <= v <= np_max (map speed frame_data).
Proof.
  intros _ Hi Hj HS. exists (weighted_speed frame_data fwhm cx cy). split.
  - now apply engine_cell_at.
  - now apply weighted_speed_bounds.
Qed.

Lemma cell_speed_between_min_and_max_witness :
  exists v,
    cell_at (_compute_gaussian_weighted_speed_profile
               [agent_a; agent_b] [1 / 4; 3 / 4] [3 / 4; 1 / 4] 1) 1 0 = Some v
    /\ np_min [1; 2] <= v <= np_max [1; 2].
Proof.
  apply (cell_speed_between_min_and_max
           [agent_a; agent_b] [1 / 4; 3 / 4] [3 / 4; 1 / 4] 1 1 0
           (1 / 4) (1 / 4)).
  - discriminate.
  - reflexivity.
  - reflexivity.
  - apply weights_sum_nonzero; [discriminate|].
    apply gaussian_peak_nonzero. lra.
Defined.

(** * The grid builder *)

Lemma ceil_spec (r : R) : IZR (ceil r) - 1 < r <= IZR (ceil r).
Proof.
  unfold ceil. rewrite minus_IZR.
  destruct (archimed (- r)) as [H1 H2]. lra.
Qed.

Lemma ceil_unique (r : R) (z : Z) : IZR z - 1 < r <= IZR z -> ceil r = z.
Proof.
  intros [H1 H2]. destruct (ceil_spec r) as [H3 H4].
  assert (IZR (z - 1) < IZR (ceil r)) as Ha by (rewrite minus_IZR; lra).
  assert (IZR (ceil r - 1) < IZR z) as Hb by (rewrite minus_IZR; lra).
  apply lt_IZR in Ha, Hb. lia.
Qed.

Lemma ceil_IZR (z : Z) : ceil (IZR z) = z.
Proof. apply ceil_unique. lra. Qed.

Lemma ceil_plus_1 (r : R) : ceil (r + 1) = (ceil r + 1)%Z.
Proof.
  apply ceil_unique. rewrite plus_IZR. destruct (ceil_spec r). lra.
Qed.

Lemma ceil_pos (r : R) : 0 < r -> (0 < ceil r)%Z.
Proof.
  intros Hr. destruct (ceil_spec r) as [_ H]. apply lt_IZR. lra.
Qed.

Lemma ceil_nonpos (r : R) : r <= 0 -> (ceil r <= 0)%Z.
Proof.
  intros Hr. destruct (ceil_spec r) as [H _].
  assert (IZR (ceil r - 1) < IZR 0) as Ha by (rewrite minus_IZR; lra).
  apply lt_IZR in Ha. lia.
Qed.

Lemma nth_map_seq {A : Type} (f : nat -> A) (n i : nat) (d : A) :
  (i < n)%nat -> nth i (map f (seq 0 n)) d = f i.
Proof.
  intros Hi. rewrite (nth_indep _ d (f 0%nat)) by now rewrite length_map, length_seq.
  rewrite map_nth, seq_nth by exact Hi. reflexivity.
Qed.

Lemma arange_ok (start stop step : R) :
  step <> 0 ->
  arange start stop step
  = Ok (map (fun i => start + INR i * step)
            (range (ceil ((stop - start) / step)))).
Proof.
  intros Hs. unfold arange. destruct (Req_dec_T step 0); [contradiction|].
  reflexivity.
Qed.

Lemma arange_zero_step (start stop : R) :
  arange start stop 0 = Err ArangeZeroStep.
Proof.
  unfold arange. destruct (Req_dec_T 0 0); [reflexivity|congruence].
Qed.

(** The grid builder with a nonzero step never raises: it returns the lattice
    of [(len(y_coords) - 1) * (len(x_coords) - 1)] cells. *)
Lemma get_grid_cells_ok (wa : WalkableArea) (g min_x min_y max_x max_y : R) :
  bounds wa = (min_x, min_y, max_x, max_y) ->
  g <> 0 ->
  get_grid_cells wa g
  = Ok (lattice min_x max_y g
                (axis_length (max_y - min_y) g - 1)
                (axis_length (max_x - min_x) g - 1),
        (Z.of_nat (axis_length (max_y - min_y) g) - 1)%Z,
        (Z.of_nat (axis_length (max_x - min_x) g) - 1)%Z).
Proof.
  intros Hb Hg. unfold get_grid_cells. rewrite Hb.
  rewrite !arange_ok by lra. cbn [bind].
  replace ((max_x + g - min_x) / g) with ((max_x - min_x) / g + 1)
    by now field.
  replace ((min_y - g - max_y) / - g) with ((max_y - min_y) / g + 1)
    by now field.
  rewrite !ceil_plus_1. unfold range. fold (axis_length (max_x - min_x) g).
  fold (axis_length (max_y - min_y) g).
  set (nx := axis_length (max_x - min_x) g).
  set (ny := axis_length (max_y - min_y) g).
  rewrite !length_map, !length_seq.
  replace (Z.to_nat (Z.of_nat nx - 1)) with (nx - 1)%nat by lia.
  replace (Z.to_nat (Z.of_nat ny - 1)) with (ny - 1)%nat by lia.
  f_equal. f_equal. f_equal.
  unfold lattice. rewrite !flat_map_concat_map. f_equal.
  apply map_ext_in. intros j Hj. apply in_seq in Hj.
  apply map_ext_in. intros i Hi. apply in_seq in Hi.
  unfold lattice_cell.
  rewrite !nth_map_seq by lia. reflexivity.
Qed.

Lemma get_grid_cells_zero_step (wa : WalkableArea) :
  get_grid_cells wa 0 = Err ArangeZeroStep.
Proof.
  unfold get_grid_cells. destruct (bounds wa) as [[[min_x min_y] max_x] max_y].
  rewrite arange_zero_step. reflexivity.
Qed.

Lemma length_lattice (min_x max_y g : R) (rows cols : nat) :
  length (lattice min_x max_y g rows cols) = (rows * cols)%nat.
Proof.
  unfold lattice. generalize 0%nat at 2.
  induction rows as [|rows IH]; intros s; cbn [seq flat_map]; [reflexivity|].
  rewrite length_app, length_map, length_seq, IH. lia.
Qed.

Lemma nth_error_lattice (min_x max_y g : R) (rows cols j i : nat) :
  (j < rows)%nat -> (i < cols)%nat ->
  nth_error (lattice min_x max_y g rows cols) (j * cols + i)
  = Some (lattice_cell min_x max_y g j i).
Proof.
  unfold lattice.
  assert (forall s, (j < rows)%nat -> (i < cols)%nat ->
            nth_error
              (flat_map (fun j' => map (lattice_cell min_x max_y g j') (seq 0 cols))
                        (seq s rows)) (j * cols + i)
            = Some (lattice_cell min_x max_y g (s + j) i)) as H.
  { revert j. induction rows as [|rows IH]; intros j s Hj Hi; [lia|].
    cbn [seq flat_map]. destruct j as [|j].
    - rewrite nth_error_app1 by (rewrite length_map, length_seq; lia).
      cbn [Nat.mul Nat.add]. rewrite nth_error_map.
      rewrite (nth_error_nth' _ 0%nat) by (rewrite length_seq; lia).
      rewrite seq_nth by lia. cbn. now rewrite Nat.add_0_r.
    - rewrite nth_error_app2 by (rewrite length_map, length_seq; cbn; lia).
      rewrite length_map, length_seq.
      replace (S j * cols + i - cols)%nat with (j * cols + i)%nat by (cbn; lia).
      rewrite IH by lia. do 2 f_equal. lia. }
  intros Hj Hi. now rewrite (H 0%nat Hj Hi).
Qed.

Lemma axis_length_cells (extent g : R) :
  0 < g -> 0 < extent ->
  (Z.of_nat (axis_length extent g) - 1)%Z = ceil (extent / g)
  /\ (axis_length extent g - 1)%nat = Z.to_nat (ceil (extent / g)).
Proof.
  intros Hg He. unfold axis_length.
  assert (0 < extent / g) as Hq by now apply Rdiv_lt_0_compat.
  pose proof (ceil_pos _ Hq). lia.
Qed.

Lemma lattice_cell_box (min_x max_y g : R) (j i : nat) :
  lattice_cell min_x max_y g j i
  = shapely_box (min_x + INR i * g) (max_y - INR j * g)
                (min_x + (INR i + 1) * g) (max_y - (INR j + 1) * g).
Proof.
  unfold lattice_cell. rewrite !plus_INR. cbn [INR]. f_equal; ring.
Qed.

(** The grid in exact arithmetic.  Were the quotients of [np.arange] not
    rounded, a bounding box of positive width and height and a positive
    [grid_size] would give [rows = ceil((max_y - min_y) / grid_size)] and
    [cols = ceil((max_x - min_x) / grid_size)], the cell of index
    [j * cols + i] being the square of side [grid_size] whose upper left
    corner is [(min_x + i * grid_size, max_y - j * grid_size)].  The counts of
    the program are those of [Float64.get_grid_cells], which can differ from
    these by one (the square [[1,2] x [1,2]] with [grid_size = 0.2] gets 6
    columns). *)
Lemma grid_shape_in_exact_arithmetic
  (walkable_area : WalkableArea) (grid_size min_x min_y max_x max_y : R) :
  bounds walkable_area = (min_x, min_y, max_x, max_y) ->
  0 < grid_size -> min_x < max_x -> min_y < max_y ->
  exists grid_cells,
    get_grid_cells walkable_area grid_size
    = Ok (grid_cells,
          ceil ((max_y - min_y) / grid_size),
          ceil ((max_x - min_x) / grid_size))
    /\ Z.of_nat (length grid_cells)
       = (ceil ((max_y - min_y) / grid_size)
          * ceil ((max_x - min_x) / grid_size))%Z
    /\ forall j i : nat,
         (Z.of_nat j < ceil ((max_y - min_y) / grid_size))%Z ->
         (Z.of_nat i < ceil ((max_x - min_x) / grid_size))%Z ->
         nth_error grid_cells
                   (j * Z.to_nat (ceil ((max_x - min_x) / grid_size)) + i)
         = Some (shapely_box
                   (min_x + INR i * grid_size)
                   (max_y - INR j * grid_size)
                   (min_x + (INR i + 1) * grid_size)
                   (max_y - (INR j + 1) * grid_size)).
Proof.
  intros Hb Hg Hx Hy.
  destruct (axis_length_cells (max_x - min_x) grid_size Hg ltac:(lra))
    as [HcZ Hcn].
  destruct (axis_length_cells (max_y - min_y) grid_size Hg ltac:(lra))
    as [HrZ Hrn].
  eexists. split; [|split].
  - rewrite (get_grid_cells_ok _ _ _ _ _ _ Hb) by lra.
    rewrite HcZ, HrZ. reflexivity.
  - rewrite length_lattice, Hcn, Hrn.
    pose proof (ceil_pos ((max_x - min_x) / grid_size)
                  ltac:(apply Rdiv_lt_0_compat; lra)).
    pose proof (ceil_pos ((max_y - min_y) / grid_size)
                  ltac:(apply Rdiv_lt_0_compat; lra)).
    lia.
  - intros j i Hj Hi. rewrite Hcn, Hrn.
    rewrite nth_error_lattice by lia. now rewrite lattice_cell_box.
Qed.

Lemma grid_shape_in_exact_arithmetic_unit_square :
  exists grid_cells,
    get_grid_cells unit_square (1 / 2) = Ok (grid_cells, 2%Z, 2%Z)
    /\ length grid_cells = 4%nat
    /\ map shapely_centroid grid_cells
       = [mkPoint (1 / 4) (3 / 4); mkPoint (3 / 4) (3 / 4);
          mkPoint (1 / 4) (1 / 4); mkPoint (3 / 4) (1 / 4)].
Proof.
  destruct (grid_shape_in_exact_arithmetic unit_square (1 / 2) 0 0 1 1 eq_refl
              ltac:(lra) ltac:(lra) ltac:(lra))
    as (cells & Hget & Hlen & Hnth).
  assert (ceil ((1 - 0) / (1 / 2)) = 2%Z) as Hc
    by (apply ceil_unique; lra).
  rewrite Hc in Hget, Hlen, Hnth.
  exists cells. split; [exact Hget|].
  destruct cells as [|c0 [|c1 [|c2 [|c3 [|c4 cells]]]]];
    cbn [length] in Hlen; try lia.
  split; [reflexivity|].
  pose proof (Hnth 0%nat 0%nat ltac:(lia) ltac:(lia)) as H00.
  pose proof (Hnth 0%nat 1%nat ltac:(lia) ltac:(lia)) as H01.
  pose proof (Hnth 1%nat 0%nat ltac:(lia) ltac:(lia)) as H10.
  pose proof (Hnth 1%nat 1%nat ltac:(lia) ltac:(lia)) as H11.
  cbn in H00, H01, H10, H11.
  injection H00 as ->. injection H01 as ->.
  injection H10 as ->. injection H11 as ->.
  unfold shapely_centroid. cbn [map box_x0 box_x1 box_y0 box_y1].
  repeat (f_equal; try lra).
Defined.

(** * Grid sizes that are not positive *)

Lemma lattice_nil (min_x max_y g : R) (rows cols : nat) :
  (rows * cols = 0)%nat -> lattice min_x max_y g rows cols = [].
Proof.
  intros H. apply length_zero_iff_nil. now rewrite length_lattice.
Qed.

(** With a negative [grid_size] and an extent of at least one step,
    [np.arange] lists no coordinate: its stop lies on the wrong side of its
    start. *)
Lemma axis_length_negative_step (extent g : R) :
  g < 0 -> - g <= extent -> axis_length extent g = 0%nat.
Proof.
  intros Hg He. unfold axis_length.
  assert (extent / g <= -1) as Hq.
  { unfold Rdiv. pose proof (Rinv_lt_0_compat g Hg) as Hi.
    assert (g * / g = 1) as H1 by (apply Rinv_r; lra). nra. }
  destruct (ceil_spec (extent / g)) as [H _].
  assert (IZR (ceil (extent / g) - 1) < IZR (-1)) as Ha
    by (rewrite minus_IZR; lra).
  apply lt_IZR in Ha. lia.
Qed.

Lemma compute_speed_profile_no_cells
  (data : DataFrame) (wa : WalkableArea) (g : R) (m : SpeedMethod)
  (gia : option (list R)) (fv : np_float) (fwhm : R) (rows cols : Z) :
  get_grid_cells wa g = Ok ([], rows, cols) ->
  compute_speed_profile data wa g m gia fv fwhm = Err VectorizeSizeZero.
Proof.
  intros H. unfold compute_speed_profile. rewrite H. reflexivity.
Qed.

Lemma compute_speed_profile_zero_step
  (data : DataFrame) (wa : WalkableArea) (m : SpeedMethod)
  (gia : option (list R)) (fv : np_float) (fwhm : R) :
  compute_speed_profile data wa 0 m gia fv fwhm = Err ArangeZeroStep.
Proof.
  unfold compute_speed_profile. rewrite get_grid_cells_zero_step. reflexivity.
Qed.

(** C5, as the program has it.  There is no check of [grid_size] and no
    geometry error.  With [grid_size = 0] the grid builder and the driver end
    with the zero-step error of [np.arange].  With [grid_size < 0] on a
    bounding box that is at least one step wide or one step high, the grid
    builder raises nothing: it returns no cell, with [cols = -1] when the box
    is one step wide and [rows = -1] when it is one step high, and the driver
    then ends with the size-0 error of [np.vectorize]. *)
Theorem nonpositive_grid_size_raises_only_numpy_errors
  (data : DataFrame) (walkable_area : WalkableArea) (grid_size : R)
  (speed_method : SpeedMethod) (gia : option (list R)) (fill_value : np_float)
  (fwhm min_x min_y max_x max_y : R) :
  bounds walkable_area = (min_x, min_y, max_x, max_y) ->
  grid_size <= 0 ->
  - grid_size <= max_x - min_x \/ - grid_size <= max_y - min_y ->
  (grid_size = 0
   /\ get_grid_cells walkable_area grid_size = Err ArangeZeroStep
   /\ compute_speed_profile data walkable_area grid_size speed_method gia
                            fill_value fwhm = Err ArangeZeroStep)
  \/ (grid_size < 0
      /\ (exists rows cols,
            get_grid_cells walkable_area grid_size = Ok ([], rows, cols)
            /\ (- grid_size <= max_x - min_x -> cols = (-1)%Z)
            /\ (- grid_size <= max_y - min_y -> rows = (-1)%Z))
      /\ compute_speed_profile data walkable_area grid_size speed_method gia
                               fill_value fwhm = Err VectorizeSizeZero).
Proof.
  intros Hb Hg Hbox. destruct (Req_dec_T grid_size 0) as [-> | Hne].
  - left. split; [reflexivity|]. split.
    + apply get_grid_cells_zero_step.
    + apply compute_speed_profile_zero_step.
  - right. split; [lra|].
    pose proof (get_grid_cells_ok _ _ _ _ _ _ Hb Hne) as Hget.
    rewrite lattice_nil in Hget.
    + split.
      * eexists _, _. split; [exact Hget|]. split; intros H.
        -- rewrite (axis_length_negative_step (max_x - min_x) grid_size)
             by lra.
           reflexivity.
        -- rewrite (axis_length_negative_step (max_y - min_y) grid_size)
             by lra.
           reflexivity.
      * eapply compute_speed_profile_no_cells. exact Hget.
    + destruct Hbox as [H | H].
      * rewrite (axis_length_negative_step (max_x - min_x) grid_size) by lra.
        lia.
      * rewrite (axis_length_negative_step (max_y - min_y) grid_size) by lra.
        lia.
Qed.

Lemma nonpositive_grid_size_witness :
  (- (1 / 2) = 0
   /\ get_grid_cells unit_square (- (1 / 2)) = Err ArangeZeroStep
   /\ compute_speed_profile [agent_a] unit_square (- (1 / 2)) GAUSSIAN None
                            np_nan 1 = Err ArangeZeroStep)
  \/ (- (1 / 2) < 0
      /\ (exists rows cols,
            get_grid_cells unit_square (- (1 / 2)) = Ok ([], rows, cols)
            /\ (- - (1 / 2) <= 1 - 0 -> cols = (-1)%Z)
            /\ (- - (1 / 2) <= 1 - 0 -> rows = (-1)%Z))
      /\ compute_speed_profile [agent_a] unit_square (- (1 / 2)) GAUSSIAN None
                               np_nan 1 = Err VectorizeSizeZero).
Proof.
  apply (nonpositive_grid_size_raises_only_numpy_errors
           [agent_a] unit_square (- (1 / 2)) GAUSSIAN None np_nan 1 0 0 1 1).
  - reflexivity.
  - lra.
  - left. lra.
Defined.

(** * The grid builder on binary64 *)

Section RowMajor.

Context {A : Type}.

Lemma length_row_major (f : nat -> nat -> A) (rows cols : nat) :
  length (flat_map (fun j => map (f j) (seq 0 cols)) (seq 0 rows))
  = (rows * cols)%nat.
Proof.
  generalize 0%nat at 2.
  induction rows as [|rows IH]; intros s; cbn [seq flat_map]; [reflexivity|].
  rewrite length_app, length_map, length_seq, IH. lia.
Qed.

Lemma nth_error_row_major (f : nat -> nat -> A) (rows cols j i : nat) :
  (j < rows)%nat -> (i < cols)%nat ->
  nth_error (flat_map (fun j' => map (f j') (seq 0 cols)) (seq 0 rows))
            (j * cols + i)
  = Some (f j i).
Proof.
  assert (forall s, (j < rows)%nat -> (i < cols)%nat ->
            nth_error
              (flat_map (fun j' => map (f j') (seq 0 cols)) (seq s rows))
              (j * cols + i)
            = Some (f (s + j)%nat i)) as H.
  { revert j. induction rows as [|rows IH]; intros j s Hj Hi; [lia|].
    cbn [seq flat_map]. destruct j as [|j].
    - rewrite nth_error_app1 by (rewrite length_map, length_seq; lia).
      cbn [Nat.mul Nat.add]. rewrite nth_error_map.
      rewrite (nth_error_nth' _ 0%nat) by (rewrite length_seq; lia).
      rewrite seq_nth by lia. cbn. now rewrite Nat.add_0_r.
    - rewrite nth_error_app2 by (rewrite length_map, length_seq; cbn; lia).
      rewrite length_map, length_seq.
      replace (S j * cols + i - cols)%nat with (j * cols + i)%nat by (cbn; lia).
      rewrite IH by lia. do 2 f_equal. lia. }
  intros Hj Hi. now rewrite (H 0%nat Hj Hi).
Qed.

End RowMajor.

Section Float64Facts.

Import PrimFloat.
#[local] Set Warnings "-inexact-float".

(** Away from a zero step and from a quotient that is zero, infinite or NaN,
    the length is the ceiling of the binary64 quotient. *)
Lemma float64_arange_length_ceiling (start stop step : float) (len : Z) :
  is_zero step = false ->
  is_zero ((stop - start) / step) = false ->
  Float64.npy_ceil ((stop - start) / step) = Some len ->
  (- 2 ^ 63 <= len <= 2 ^ 63)%Z ->
  Float64.arange_length start stop step = Float64.Returns len.
Proof.
  intros Hstep Hval Hceil Hrange. unfold Float64.arange_length.
  rewrite Hstep, Hceil, Hval.
  replace ((len <? - 2 ^ 63) || (2 ^ 63 <? len))%Z with false; [reflexivity|].
  symmetry. apply orb_false_iff. split; apply Z.ltb_ge; lia.
Qed.

Lemma float64_arange_returns (start stop step : float) (len : Z) :
  Float64.arange_length start stop step = Float64.Returns len ->
  Float64.arange start stop step
  = Float64.Returns (map (Float64.coordinate start step) (range len)).
Proof. intros H. unfold Float64.arange. now rewrite H. Qed.

Lemma float64_nth_coordinate (start step : float) (len : Z) (i : nat) :
  (i < Z.to_nat len)%nat ->
  nth i (map (Float64.coordinate start step) (range len)) 0%float
  = Float64.coordinate start step i.
Proof.
  intros Hi. unfold range.
  rewrite (nth_indep _ 0%float (Float64.coordinate start step 0))
    by now rewrite length_map, length_seq.
  rewrite map_nth, seq_nth by exact Hi. reflexivity.
Qed.

(** When both calls of [np.arange] return, so does the grid builder, with
    the lattice between the coordinates listed. *)
Lemma float64_get_grid_cells_returns
  (min_x min_y max_x max_y grid_size : float) (nx ny : Z) :
  Float64.arange_length min_x (max_x + grid_size) grid_size
  = Float64.Returns nx ->
  Float64.arange_length max_y (min_y - grid_size) (- grid_size)
  = Float64.Returns ny ->
  Float64.get_grid_cells
    (Float64.mkWalkableArea (min_x, min_y, max_x, max_y)) grid_size
  = Float64.Returns
      (Float64.lattice min_x max_y grid_size
                       (Z.to_nat (ny - 1)) (Z.to_nat (nx - 1)),
       (Z.max ny 0 - 1)%Z, (Z.max nx 0 - 1)%Z).
Proof.
  intros Hx Hy. unfold Float64.get_grid_cells. cbn [Float64.bounds].
  rewrite (float64_arange_returns _ _ _ _ Hx).
  rewrite (float64_arange_returns _ _ _ _ Hy).
  assert (forall n, length (range n) = Z.to_nat n) as Hlen
    by (intros n; apply length_seq).
  rewrite !length_map, !Hlen.
  replace (Z.of_nat (Z.to_nat nx)) with (Z.max nx 0) by lia.
  replace (Z.of_nat (Z.to_nat ny)) with (Z.max ny 0) by lia.
  f_equal. f_equal. f_equal.
  change (range (Z.max nx 0 - 1)) with (seq 0 (Z.to_nat (Z.max nx 0 - 1))).
  change (range (Z.max ny 0 - 1)) with (seq 0 (Z.to_nat (Z.max ny 0 - 1))).
  replace (Z.to_nat (Z.max ny 0 - 1)) with (Z.to_nat (ny - 1)) by lia.
  replace (Z.to_nat (Z.max nx 0 - 1)) with (Z.to_nat (nx - 1)) by lia.
  unfold Float64.lattice. rewrite !flat_map_concat_map. f_equal.
  apply map_ext_in. intros j Hj. apply in_seq in Hj.
  apply map_ext_in. intros i Hi. apply in_seq in Hi.
  unfold Float64.lattice_cell.
  rewrite !float64_nth_coordinate by lia. reflexivity.
Qed.

(** Conversely, a grid builder that returns has listed its coordinates. *)
Lemma float64_get_grid_cells_inv
  (walkable_area : Float64.WalkableArea) (grid_size : float)
  (grid_cells : list Float64.Polygon) (rows cols : Z) :
  Float64.get_grid_cells walkable_area grid_size
  = Float64.Returns (grid_cells, rows, cols) ->
  exists min_x min_y max_x max_y,
    Float64.bounds walkable_area = (min_x, min_y, max_x, max_y)
    /\ (-1 <= rows)%Z /\ (-1 <= cols)%Z
    /\ grid_cells = Float64.lattice min_x max_y grid_size
                                    (Z.to_nat rows) (Z.to_nat cols).
Proof.
  destruct walkable_area as [[[[min_x min_y] max_x] max_y]]. intros Hget.
  exists min_x, min_y, max_x, max_y. split; [reflexivity|].
  destruct (Float64.arange_length min_x (max_x + grid_size) grid_size)
    as [nx|e] eqn:Hx.
  - destruct (Float64.arange_length max_y (min_y - grid_size) (- grid_size))
      as [ny|e] eqn:Hy.
    + rewrite (float64_get_grid_cells_returns _ _ _ _ _ _ _ Hx Hy) in Hget.
      injection Hget as <- <- <-.
      replace (Z.to_nat (Z.max ny 0 - 1)) with (Z.to_nat (ny - 1)) by lia.
      replace (Z.to_nat (Z.max nx 0 - 1)) with (Z.to_nat (nx - 1)) by lia.
      repeat split; lia.
    + unfold Float64.get_grid_cells, Float64.arange in Hget.
      cbn [Float64.bounds] in Hget. rewrite Hx, Hy in Hget. discriminate.
  - unfold Float64.get_grid_cells, Float64.arange in Hget.
    cbn [Float64.bounds] in Hget. rewrite Hx in Hget. discriminate.
Qed.

(** C4, as the program has it.  Whenever [np.arange] lists [nx] abscissae and
    [ny] ordinates ([nx] and [ny] being the ceilings of the binary64 quotients
    [((max_x + grid_size) - min_x) / grid_size] and
    [((min_y - grid_size) - max_y) / (- grid_size)]), the grid builder returns
    [rows = max(ny, 0) - 1] and [cols = max(nx, 0) - 1] and exactly
    [rows * cols] cells in row-major order: the cell of index [j * cols + i]
    is the box between the [i]-th and the next abscissa and between the
    [j]-th and the next ordinate.  The abscissae start at [min_x] and the
    ordinates at [max_y]: row 0 is the row that hangs from the upper edge of
    the bounding box. *)
Theorem grid_shape_float64
  (min_x min_y max_x max_y grid_size : float) (nx ny : Z) :
  Float64.arange_length min_x (max_x + grid_size) grid_size
  = Float64.Returns nx ->
  Float64.arange_length max_y (min_y - grid_size) (- grid_size)
  = Float64.Returns ny ->
  exists grid_cells,
    Float64.get_grid_cells
      (Float64.mkWalkableArea (min_x, min_y, max_x, max_y)) grid_size
    = Float64.Returns (grid_cells, (Z.max ny 0 - 1)%Z, (Z.max nx 0 - 1)%Z)
    /\ length grid_cells = (Z.to_nat (ny - 1) * Z.to_nat (nx - 1))%nat
    /\ (forall j i : nat,
          (j < Z.to_nat (ny - 1))%nat -> (i < Z.to_nat (nx - 1))%nat ->
          nth_error grid_cells (j * Z.to_nat (nx - 1) + i)
          = Some (Float64.shapely_box
                    (Float64.coordinate min_x grid_size i)
                    (Float64.coordinate max_y (- grid_size) j)
                    (Float64.coordinate min_x grid_size (i + 1))
                    (Float64.coordinate max_y (- grid_size) (j + 1))))
    /\ Float64.coordinate min_x grid_size 0 = min_x
    /\ Float64.coordinate max_y (- grid_size) 0 = max_y.
Proof.
  intros Hx Hy.
  exists (Float64.lattice min_x max_y grid_size
                          (Z.to_nat (ny - 1)) (Z.to_nat (nx - 1))).
  split; [|split; [|split; [|split]]].
  - now apply float64_get_grid_cells_returns.
  - apply length_row_major.
  - intros j i Hj Hi.
    apply (nth_error_row_major (Float64.lattice_cell min_x max_y grid_size));
      assumption.
  - reflexivity.
  - reflexivity.
Qed.

(** On the unit square with [grid_size = 0.5]: two rows of two cells, with
    centres 0.25 and 0.75 on each axis, the top row first. *)
Lemma grid_shape_float64_unit_square :
  exists grid_cells,
    Float64.get_grid_cells Float64.unit_square 0.5
    = Float64.Returns (grid_cells, 2%Z, 2%Z)
    /\ length grid_cells = 4%nat
    /\ map Float64.shapely_centroid grid_cells
       = [Float64.mkPoint 0.25 0.75; Float64.mkPoint 0.75 0.75;
          Float64.mkPoint 0.25 0.25; Float64.mkPoint 0.75 0.25].
Proof.
  destruct (grid_shape_float64 0 0 1 1 0.5 3 3)
    as (cells & Hget & Hlen & _).
  - vm_compute. reflexivity.
  - vm_compute. reflexivity.
  - exists cells. split; [exact Hget|]. split; [exact Hlen|].
    vm_compute in Hget. injection Hget as <-.
    vm_compute. reflexivity.
Defined.

(** C4, as claimed, fails.  On the square [[1,2] x [1,2]] with
    [grid_size = 0.2] the claimed number of columns is 5 (the ceiling of the
    exact quotient of the doubles, and also of their binary64 quotient), and
    the grid builder returns 5 rows of 6 columns: [2.0 + 0.2] is the double
    [2.2000000000000002], and [(2.2000000000000002 - 1.0) / 0.2] is
    [6.000000000000001], whose ceiling is 7. *)
Lemma grid_shape_fails_in_float64 :
  Float64.spec_axis_count 1 2 0.2 = Some 5%Z
  /\ Float64.npy_ceil ((2 - 1) / 0.2) = Some 5%Z
  /\ Float64.arange_length 1 (2 + 0.2) 0.2 = Float64.Returns 7%Z
  /\ exists grid_cells cols,
       Float64.get_grid_cells Float64.square_1_2 0.2
       = Float64.Returns (grid_cells, 5%Z, cols)
       /\ cols = 6%Z
       /\ length grid_cells = 30%nat
       /\ Some cols <> Float64.spec_axis_count 1 2 0.2.
Proof.
  split; [vm_compute; reflexivity|].
  split; [vm_compute; reflexivity|].
  split; [vm_compute; reflexivity|].
  eexists _, _. split; [vm_compute; reflexivity|].
  split; [reflexivity|]. split; [reflexivity|].
  vm_compute. discriminate.
Qed.

(** C5, as claimed, fails.  On the unit square with [grid_size = -0.5] the
    grid builder signals nothing: it returns no cell and [rows = cols = -1],
    in exact arithmetic and on binary64 alike. *)
Lemma negative_grid_size_is_not_refused :
  result_error (get_grid_cells unit_square (- (1 / 2))) = None
  /\ get_grid_cells unit_square (- (1 / 2)) = Ok ([], (-1)%Z, (-1)%Z)
  /\ Float64.get_grid_cells Float64.unit_square (-0.5)
     = Float64.Returns ([], (-1)%Z, (-1)%Z).
Proof.
  assert (get_grid_cells unit_square (- (1 / 2)) = Ok ([], (-1)%Z, (-1)%Z))
    as H.
  { rewrite (get_grid_cells_ok unit_square (- (1 / 2)) 0 0 1 1 eq_refl)
      by lra.
    rewrite axis_length_negative_step by lra. reflexivity. }
  split; [now rewrite H|]. split; [exact H|].
  vm_compute. reflexivity.
Qed.

(** X8.  Neighbouring cells share their edges bit for bit, so that rounding
    leaves no gap between them: a cell's right edge is the left edge of its
    right neighbour, its lower edge is the upper edge of the cell below, the
    cells of a row share their ordinates and those of a column their
    abscissae; row 0 starts at [max_y] and column 0 at [min_x]. *)
Theorem grid_cells_share_their_edges
  (walkable_area : Float64.WalkableArea) (grid_size : float)
  (grid_cells : list Float64.Polygon) (rows cols : Z)
  (min_x min_y max_x max_y : float) (j i : nat) :
  Float64.bounds walkable_area = (min_x, min_y, max_x, max_y) ->
  Float64.get_grid_cells walkable_area grid_size
  = Float64.Returns (grid_cells, rows, cols) ->
  (Z.of_nat j < rows)%Z -> (Z.of_nat i < cols)%Z ->
  exists c,
    nth_error grid_cells (j * Z.to_nat cols + i) = Some c
    /\ ((Z.of_nat i + 1 < cols)%Z ->
        exists right,
          nth_error grid_cells (j * Z.to_nat cols + (i + 1)) = Some right
          /\ Float64.box_x0 right = Float64.box_x1 c
          /\ Float64.box_y0 right = Float64.box_y0 c
          /\ Float64.box_y1 right = Float64.box_y1 c)
    /\ ((Z.of_nat j + 1 < rows)%Z ->
        exists below,
          nth_error grid_cells ((j + 1) * Z.to_nat cols + i) = Some below
          /\ Float64.box_y0 below = Float64.box_y1 c
          /\ Float64.box_x0 below = Float64.box_x0 c
          /\ Float64.box_x1 below = Float64.box_x1 c)
    /\ (j = 0%nat -> Float64.box_y0 c = max_y)
    /\ (i = 0%nat -> Float64.box_x0 c = min_x).
Proof.
  intros Hb Hget Hj Hi.
  apply float64_get_grid_cells_inv in Hget.
  destruct Hget as (min_x' & min_y' & max_x' & max_y' & Hb' & _ & _ & ->).
  rewrite Hb in Hb'. injection Hb' as <- <- <- <-.
  exists (Float64.lattice_cell min_x max_y grid_size j i).
  unfold Float64.lattice. split; [|split; [|split; [|split]]].
  - apply (nth_error_row_major (Float64.lattice_cell min_x max_y grid_size));
      lia.
  - intros Hi'.
    exists (Float64.lattice_cell min_x max_y grid_size j (i + 1)). split.
    + apply (nth_error_row_major
               (Float64.lattice_cell min_x max_y grid_size)); lia.
    + repeat split.
  - intros Hj'.
    exists (Float64.lattice_cell min_x max_y grid_size (j + 1) i). split.
    + apply (nth_error_row_major
               (Float64.lattice_cell min_x max_y grid_size)); lia.
    + repeat split.
  - intros ->. reflexivity.
  - intros ->. reflexivity.
Qed.

Lemma grid_cells_share_their_edges_witness :
  exists c,
    nth_error [Float64.shapely_box 0 1 0.5 0.5;
               Float64.shapely_box 0.5 1 1 0.5;
               Float64.shapely_box 0 0.5 0.5 0;
               Float64.shapely_box 0.5 0.5 1 0] (0 * Z.to_nat 2 + 0) = Some c
    /\ ((Z.of_nat 0 + 1 < 2)%Z ->
        exists right,
          nth_error [Float64.shapely_box 0 1 0.5 0.5;
                     Float64.shapely_box 0.5 1 1 0.5;
                     Float64.shapely_box 0 0.5 0.5 0;
                     Float64.shapely_box 0.5 0.5 1 0]
                    (0 * Z.to_nat 2 + (0 + 1)) = Some right
          /\ Float64.box_x0 right = Float64.box_x1 c
          /\ Float64.box_y0 right = Float64.box_y0 c
          /\ Float64.box_y1 right = Float64.box_y1 c)
    /\ ((Z.of_nat 0 + 1 < 2)%Z ->
        exists below,
          nth_error [Float64.shapely_box 0 1 0.5 0.5;
                     Float64.shapely_box 0.5 1 1 0.5;
                     Float64.shapely_box 0 0.5 0.5 0;
                     Float64.shapely_box 0.5 0.5 1 0]
                    ((0 + 1) * Z.to_nat 2 + 0) = Some below
          /\ Float64.box_y0 below = Float64.box_y1 c
          /\ Float64.box_x0 below = Float64.box_x0 c
          /\ Float64.box_x1 below = Float64.box_x1 c)
    /\ (0%nat = 0%nat -> Float64.box_y0 c = 1%float)
    /\ (0%nat = 0%nat -> Float64.box_x0 c = 0%float).
Proof.
  apply (grid_cells_share_their_edges Float64.unit_square 0.5 _ 2 2 0 0 1 1
           0 0).
  - reflexivity.
  - vm_compute. reflexivity.
  - lia.
  - lia.
Defined.

End Float64Facts.

(** * Slices and reshaping *)

Section Slices.

Context {A : Type}.

Lemma firstn_length_app (l1 l2 : list A) :
  firstn (length l1) (l1 ++ l2) = l1.
Proof. induction l1 as [|a l1 IH]; cbn; [now destruct l2|now rewrite IH]. Qed.

Lemma skipn_length_app (l1 l2 : list A) (k : nat) :
  skipn (length l1 + k) (l1 ++ l2) = skipn k l2.
Proof. induction l1 as [|a l1 IH]; cbn; [reflexivity|exact IH]. Qed.

Lemma firstn_1_skipn (n : nat) (a : list A) :
  firstn 1 (skipn n a)
  = match nth_error a n with Some v => [v] | None => [] end.
Proof.
  revert a. induction n as [|n IH]; intros [|v a]; cbn; try reflexivity.
  apply IH.
Qed.

Lemma flat_map_nil_in {B : Type} (f : B -> list A) (l : list B) :
  (forall b, In b l -> f b = []) -> flat_map f l = [].
Proof.
  induction l as [|b l IH]; intros H; cbn; [reflexivity|].
  rewrite (H b) by now left. apply IH. intros b' Hb'. apply H. now right.
Qed.

(** On an array of [rows * cols] elements the stride [cols] picks the first
    element of each of the [rows] lines. *)
Lemma stride_lines (cols rows : nat) (a : list A) (line_head : nat -> A) :
  (0 < cols)%nat -> length a = (rows * cols)%nat ->
  (forall j, (j < rows)%nat -> nth_error a (j * cols) = Some (line_head j)) ->
  stride cols a = map line_head (seq 0 rows).
Proof.
  intros Hc Hlen Hhead. unfold stride. rewrite Hlen.
  replace (rows * cols)%nat with (rows + (rows * cols - rows))%nat by nia.
  rewrite seq_app, flat_map_app, Nat.add_0_l.
  rewrite (flat_map_nil_in _ (seq rows _)), app_nil_r.
  - rewrite flat_map_concat_map.
    rewrite (map_ext_in _ (fun j => [line_head j])).
    + induction (seq 0 rows) as [|q l IH]; cbn; [reflexivity|now rewrite IH].
    + intros j Hj. apply in_seq in Hj.
      rewrite firstn_1_skipn, Hhead by lia. reflexivity.
  - intros q Hq. apply in_seq in Hq. rewrite firstn_1_skipn.
    assert (nth_error a (q * cols) = None) as ->; [|reflexivity].
    apply nth_error_None. nia.
Qed.

End Slices.

Lemma reshape_lines (cols : nat) (m : list (list R)) :
  Forall (fun line => length line = cols) m ->
  length (concat m) = (length m * cols)%nat
  /\ map (fun q => firstn cols (skipn (q * cols) (concat m)))
         (seq 0 (length m)) = m.
Proof.
  induction 1 as [|line m Hline _ [IHlen IHmap]]; [split; reflexivity|].
  cbn [concat length seq map]. split.
  - rewrite length_app, IHlen, Hline. reflexivity.
  - cbn [Nat.mul skipn]. rewrite <- Hline at 1. rewrite firstn_length_app.
    f_equal. rewrite <- seq_shift, map_map.
    rewrite <- IHmap at 2. apply map_ext. intros q.
    replace (S q * cols)%nat with (length line + q * cols)%nat by (cbn; lia).
    now rewrite skipn_length_app.
Qed.

(** Reshaping an array to the shape it has is the identity. *)
Lemma reshape_same_shape (rows cols : nat) (m : list (list R)) :
  length m = rows -> Forall (fun line => length line = cols) m ->
  reshape (Z.of_nat rows) (Z.of_nat cols) m = Ok m.
Proof.
  intros Hrows Hcols. destruct (reshape_lines cols m Hcols) as [Hlen Hmap].
  unfold reshape. rewrite Hlen, Hrows.
  replace ((0 <=? Z.of_nat rows)%Z && (0 <=? Z.of_nat cols)%Z
           && (Z.of_nat (rows * cols) =? Z.of_nat rows * Z.of_nat cols)%Z)
    with true.
  - unfold range. rewrite !Nat2Z.id, <- Hrows, Hmap. reflexivity.
  - symmetry. rewrite !andb_true_iff, !Z.leb_le, Z.eqb_eq. lia.
Qed.

Lemma engine_shape (fd : DataFrame) (center_x center_y : list R) (fwhm : R) :
  length (_compute_gaussian_weighted_speed_profile fd center_x center_y fwhm)
  = length center_y
  /\ Forall (fun line => length line = length center_x)
            (_compute_gaussian_weighted_speed_profile fd center_x center_y fwhm).
Proof.
  rewrite engine_by_rows. split; [now rewrite length_map|].
  apply Forall_forall. intros line Hin. apply in_map_iff in Hin.
  destruct Hin as (cy & <- & _). now rewrite length_map.
Qed.

Lemma for_each_ok {A B : Type} (f : A -> B) (body : A -> result B) (l : list A) :
  (forall a, In a l -> body a = Ok (f a)) -> for_each body l = Ok (map f l).
Proof.
  induction l as [|a l IH]; intros H; cbn [for_each map]; [reflexivity|].
  rewrite (H a) by now left. cbn [bind].
  rewrite IH by (intros b Hb; apply H; now right). reflexivity.
Qed.

(** * The batch driver on a proper grid *)

Lemma np_vectorize_ok {A B : Type} (f : A -> B) (a : list A) :
  a <> [] -> np_vectorize f a = Ok (map f a).
Proof. destruct a; [congruence|reflexivity]. Qed.

Lemma lattice_first_row (min_x max_y g : R) (rows cols : nat) :
  (0 < rows)%nat ->
  firstn cols (lattice min_x max_y g rows cols)
  = map (lattice_cell min_x max_y g 0) (seq 0 cols).
Proof.
  intros Hr. destruct rows as [|rows]; [lia|].
  unfold lattice. cbn [seq flat_map].
  set (line := map (lattice_cell min_x max_y g 0) (seq 0 cols)).
  replace cols with (length line) at 1
    by (unfold line; now rewrite length_map, length_seq).
  apply firstn_length_app.
Qed.

Lemma centroid_x (min_x max_y g : R) (j i : nat) :
  get_x (shapely_centroid (lattice_cell min_x max_y g j i))
  = min_x + (INR i + 1 / 2) * g.
Proof. rewrite lattice_cell_box. cbn. field. Qed.

Lemma centroid_y (min_x max_y g : R) (j i : nat) :
  get_y (shapely_centroid (lattice_cell min_x max_y g j i))
  = max_y - (INR j + 1 / 2) * g.
Proof. rewrite lattice_cell_box. cbn. field. Qed.

(** On a proper grid the driver raises nothing: it returns, group by group
    in the order of [groupby], the engine's grid over the lattice centres. *)
Lemma compute_speed_profile_ok
  (data : DataFrame) (wa : WalkableArea) (g : R) (m : SpeedMethod)
  (gia : option (list R)) (fv : np_float) (fwhm min_x min_y max_x max_y : R) :
  bounds wa = (min_x, min_y, max_x, max_y) ->
  0 < g -> min_x < max_x -> min_y < max_y ->
  compute_speed_profile data wa g m gia fv fwhm
  = Ok (map (fun group : Z * DataFrame =>
               _compute_gaussian_weighted_speed_profile
                 (snd group)
                 (grid_center_x min_x g (Z.to_nat (ceil ((max_x - min_x) / g))))
                 (grid_center_y max_y g (Z.to_nat (ceil ((max_y - min_y) / g))))
                 fwhm)
            (groupby data)).
Proof.
  intros Hb Hg Hx Hy.
  destruct (axis_length_cells (max_x - min_x) g Hg ltac:(lra)) as [HcZ Hcn].
  destruct (axis_length_cells (max_y - min_y) g Hg ltac:(lra)) as [HrZ Hrn].
  pose proof (ceil_pos ((max_x - min_x) / g)
                ltac:(apply Rdiv_lt_0_compat; lra)) as Hcpos.
  pose proof (ceil_pos ((max_y - min_y) / g)
                ltac:(apply Rdiv_lt_0_compat; lra)) as Hrpos.
  unfold compute_speed_profile.
  rewrite (get_grid_cells_ok _ _ _ _ _ _ Hb) by lra.
  rewrite HcZ, HrZ, Hcn, Hrn. cbn [bind].
  set (cols := Z.to_nat (ceil ((max_x - min_x) / g))) in *.
  set (rows := Z.to_nat (ceil ((max_y - min_y) / g))) in *.
  replace (ceil ((max_x - min_x) / g)) with (Z.of_nat cols) by lia.
  replace (ceil ((max_y - min_y) / g)) with (Z.of_nat rows) by lia.
  assert (0 < cols)%nat as Hc by lia. assert (0 < rows)%nat as Hr by lia.
  set (L := lattice min_x max_y g rows cols).
  assert (length L = (rows * cols)%nat) as HL by apply length_lattice.
  rewrite np_vectorize_ok
    by (intros E; rewrite E in HL; cbn in HL; nia).
  cbn [bind].
  assert (slice_to (Z.of_nat cols) (map shapely_centroid L)
          = map shapely_centroid (map (lattice_cell min_x max_y g 0) (seq 0 cols)))
    as ->.
  { unfold slice_to. destruct (Z.ltb_spec (Z.of_nat cols) 0); [lia|].
    rewrite Nat2Z.id, firstn_map. unfold L.
    now rewrite lattice_first_row. }
  assert (slice_step (Z.of_nat cols) (map shapely_centroid L)
          = Ok (map (fun j => shapely_centroid (lattice_cell min_x max_y g j 0))
                    (seq 0 rows))) as ->.
  { unfold slice_step. destruct (Z.eqb_spec (Z.of_nat cols) 0); [lia|].
    destruct (Z.ltb_spec (Z.of_nat cols) 0); [lia|].
    rewrite Nat2Z.id. f_equal. apply stride_lines.
    - exact Hc.
    - now rewrite length_map.
    - intros j Hj. rewrite nth_error_map.
      replace (j * cols)%nat with (j * cols + 0)%nat by lia.
      unfold L. now rewrite nth_error_lattice. }
  cbn [bind]. rewrite !map_map.
  rewrite (map_ext _ _ (centroid_x min_x max_y g 0)).
  rewrite (map_ext (fun j => get_y (shapely_centroid (lattice_cell min_x max_y g j 0)))
                   (fun j => max_y - (INR j + 1 / 2) * g))
    by (intros j; apply centroid_y).
  fold (grid_center_x min_x g cols). fold (grid_center_y max_y g rows).
  apply for_each_ok. intros group _. cbn [orb bind].
  destruct (engine_shape (snd group) (grid_center_x min_x g cols)
                         (grid_center_y max_y g rows) fwhm) as [Hlen Hlines].
  apply reshape_same_shape.
  - rewrite Hlen. unfold grid_center_y. now rewrite length_map, length_seq.
  - unfold grid_center_x in Hlines at 1.
    now rewrite length_map, length_seq in Hlines.
Qed.

(** * Grouping by frame *)

Lemma insert_key_In (k f : Z) (keys : list Z) :
  In f (insert_key k keys) <-> f = k \/ In f keys.
Proof.
  induction keys as [|h t IH]; cbn.
  - intuition.
  - destruct (Z.ltb_spec k h); [cbn; intuition|].
    destruct (Z.eqb_spec k h) as [->|Hne]; cbn; [intuition|].
    rewrite IH. intuition.
Qed.

Lemma insert_key_sorted (k : Z) (keys : list Z) :
  StronglySorted Z.lt keys -> StronglySorted Z.lt (insert_key k keys).
Proof.
  induction 1 as [|h t Hsorted IH Hall]; cbn.
  - constructor; constructor.
  - destruct (Z.ltb_spec k h) as [Hlt|Hge].
    + constructor; [now constructor|]. constructor; [exact Hlt|].
      eapply Forall_impl; [|exact Hall]. intros f Hf. cbv beta in *. lia.
    + destruct (Z.eqb_spec k h) as [->|Hne]; [now constructor|].
      constructor; [exact IH|]. apply Forall_forall. intros f Hf.
      apply insert_key_In in Hf. destruct Hf as [->|Hf]; [lia|].
      rewrite Forall_forall in Hall. now apply Hall.
Qed.

Lemma sorted_keys_sorted (column : list Z) :
  StronglySorted Z.lt (sorted_keys column).
Proof.
  induction column as [|k column IH]; cbn; [constructor|].
  now apply insert_key_sorted.
Qed.

Lemma sorted_keys_In (column : list Z) (f : Z) :
  In f (sorted_keys column) <-> In f column.
Proof.
  induction column as [|k column IH]; cbn; [reflexivity|].
  rewrite insert_key_In, IH. intuition.
Qed.


Lemma unit_cell_count : ceil ((1 - 0) / 1) = 1%Z.
Proof. apply ceil_unique. lra. Qed.

Lemma single_agent_grid (a : row) (fwhm cx cy : R) :
  fwhm <> 0 ->
  _compute_gaussian_weighted_speed_profile [a] [cx] [cy] fwhm = [[speed a]].
Proof.
  intros Hf. rewrite engine_by_rows. cbn [map].
  now rewrite single_agent_weighted_speed.
Qed.


(** The driver on the two-frame table over the unit square as one cell:
    frame 1 comes first whatever the order of the rows, and whatever the sign
    of [fwhm]. *)
Lemma two_frames_profiles (data : DataFrame) (fwhm : R) :
  groupby data = [(1%Z, [agent_a]); (2%Z, [agent_b])] ->
  fwhm <> 0 ->
  compute_speed_profile data unit_square 1 GAUSSIAN None np_nan fwhm
  = Ok [[[1]]; [[2]]].
Proof.
  intros Hgroups Hf.
  rewrite (compute_speed_profile_ok data unit_square 1 GAUSSIAN None np_nan
             fwhm 0 0 1 1 eq_refl) by lra.
  rewrite unit_cell_count, Hgroups. change (Z.to_nat 1) with 1%nat.
  cbn [map snd grid_center_x grid_center_y seq].
  now rewrite !single_agent_grid.
Qed.


(** * Parameters the driver does not check *)

Lemma weighted_speed_opp (fd : DataFrame) (fwhm cx cy : R) :
  weighted_speed fd (- fwhm) cx cy = weighted_speed fd fwhm cx cy.
Proof.
  assert (forall r, agent_weight (- fwhm) cx cy r
                    = -1 * agent_weight fwhm cx cy r) as Hw.
  { intros r. unfold agent_weight. rewrite gaussian_opp. ring. }
  rewrite !weighted_speed_agents, !weights_agents.
  rewrite (map_ext _ _ Hw), np_sum_map_scale.
  apply f_equal, map_ext. intros r. rewrite Hw.
  unfold Rdiv. replace (-1 * np_sum (map (agent_weight fwhm cx cy) fd))
    with (- np_sum (map (agent_weight fwhm cx cy) fd)) by ring.
  rewrite Rinv_opp. ring.
Qed.

Lemma engine_opp (fd : DataFrame) (center_x center_y : list R) (fwhm : R) :
  _compute_gaussian_weighted_speed_profile fd center_x center_y (- fwhm)
  = _compute_gaussian_weighted_speed_profile fd center_x center_y fwhm.
Proof.
  rewrite !engine_by_rows. apply map_ext. intros cy. apply map_ext.
  intros cx. apply weighted_speed_opp.
Qed.

Lemma for_each_ext {A B : Type} (body body' : A -> result B) (l : list A) :
  (forall a, body a = body' a) -> for_each body l = for_each body' l.
Proof.
  intros H. induction l as [|a l IH]; cbn [for_each]; [reflexivity|].
  now rewrite H, IH.
Qed.

Lemma for_each_error_ext {A B : Type} (body body' : A -> result B) (l : list A) :
  (forall a, result_error (body a) = result_error (body' a)) ->
  result_error (for_each body l) = result_error (for_each body' l).
Proof.
  intros H. induction l as [|a l IH]; cbn [for_each]; [reflexivity|].
  specialize (H a). destruct (body a), (body' a); cbn in H |- *;
    try discriminate; [|exact H].
  destruct (for_each body l), (for_each body' l); cbn in IH |- *;
    try discriminate; [reflexivity|exact IH].
Qed.

Lemma for_each_error {A B : Type} (P : exn -> Prop) (body : A -> result B)
  (l : list A) (e : exn) :
  (forall a e', body a = Err e' -> P e') ->
  for_each body l = Err e -> P e.
Proof.
  intros H. induction l as [|a l IH]; cbn [for_each]; [discriminate|].
  destruct (body a) as [b|e'] eqn:Hb; cbn [bind].
  - destruct (for_each body l) as [bs|e'']; cbn [bind]; [discriminate|].
    intros E. injection E as <-. now apply IH.
  - intros E. injection E as <-. now apply (H a).
Qed.

Lemma engine_size (fd : DataFrame) (center_x center_y : list R) (fwhm : R) :
  length (concat (_compute_gaussian_weighted_speed_profile
                    fd center_x center_y fwhm))
  = (length center_y * length center_x)%nat.
Proof.
  destruct (engine_shape fd center_x center_y fwhm) as [Hlen Hlines].
  destruct (reshape_lines _ _ Hlines) as [Hsize _]. now rewrite Hsize, Hlen.
Qed.

Lemma reshape_error_size (rows cols : Z) (m m' : list (list R)) :
  length (concat m) = length (concat m') ->
  result_error (reshape rows cols m) = result_error (reshape rows cols m').
Proof.
  intros H. unfold reshape. rewrite H.
  now destruct ((0 <=? rows)%Z && (0 <=? cols)%Z
                && (Z.of_nat (length (concat m')) =? rows * cols)%Z).
Qed.

Lemma reshape_error (rows cols : Z) (m : list (list R)) (e : exn) :
  reshape rows cols m = Err e -> e = ReshapeSizeMismatch.
Proof.
  unfold reshape.
  destruct ((0 <=? rows)%Z && (0 <=? cols)%Z
            && (Z.of_nat (length (concat m)) =? rows * cols)%Z);
    [discriminate|]. now intros [= <-].
Qed.

Lemma get_grid_cells_error (wa : WalkableArea) (g : R) (e : exn) :
  get_grid_cells wa g = Err e -> e = ArangeZeroStep.
Proof.
  destruct (Req_dec_T g 0) as [-> | Hg].
  - rewrite get_grid_cells_zero_step. now intros [= <-].
  - destruct (bounds wa) as [[[min_x min_y] max_x] max_y] eqn:Hb.
    now rewrite (get_grid_cells_ok _ _ _ _ _ _ Hb Hg).
Qed.

(** The exceptions of the driver are numpy's. *)
Lemma compute_speed_profile_error
  (data : DataFrame) (wa : WalkableArea) (g : R) (m : SpeedMethod)
  (gia : option (list R)) (fv : np_float) (fwhm : R) (e : exn) :
  compute_speed_profile data wa g m gia fv fwhm = Err e ->
  e = ArangeZeroStep \/ e = VectorizeSizeZero \/ e = SliceStepZero
  \/ e = ReshapeSizeMismatch.
Proof.
  unfold compute_speed_profile.
  destruct (get_grid_cells wa g) as [[[cells rows] cols]|e0] eqn:Hgrid;
    cbn [bind].
  2:{ intros [= <-]. left. now apply (get_grid_cells_error wa g). }
  destruct cells as [|c cells]; cbn [np_vectorize bind].
  { intros [= <-]. right. now left. }
  unfold slice_step at 1.
  destruct (cols =? 0)%Z; cbn [bind].
  { intros [= <-]. right. right. now left. }
  destruct (cols <? 0)%Z; cbn [bind orb].
  - intros H. right. right. right. revert H.
    apply (for_each_error (fun e' => e' = ReshapeSizeMismatch)).
    intros group e'. apply reshape_error.
  - intros H. right. right. right. revert H.
    apply (for_each_error (fun e' => e' = ReshapeSizeMismatch)).
    intros group e'. apply reshape_error.
Qed.

(** C6, as the program has it.  [fwhm] is not validated: it reaches the
    Gaussian as given.  A negative [fwhm] gives exactly the result of its
    opposite, and whether the driver ends with an exception, and with which,
    does not depend on [fwhm]. *)
Theorem fwhm_is_not_validated
  (data : DataFrame) (walkable_area : WalkableArea) (grid_size : R)
  (speed_method : SpeedMethod) (gia : option (list R)) (fill_value : np_float)
  (fwhm fwhm' : R) :
  compute_speed_profile data walkable_area grid_size speed_method gia
                        fill_value (- fwhm)
  = compute_speed_profile data walkable_area grid_size speed_method gia
                          fill_value fwhm
  /\ result_error (compute_speed_profile data walkable_area grid_size
                     speed_method gia fill_value fwhm)
     = result_error (compute_speed_profile data walkable_area grid_size
                       speed_method gia fill_value fwhm').
Proof.
  unfold compute_speed_profile.
  destruct (get_grid_cells walkable_area grid_size)
    as [[[cells rows] cols]|e0]; cbn [bind]; [|split; reflexivity].
  destruct (np_vectorize shapely_centroid cells) as [grid_center|e1];
    cbn [bind]; [|split; reflexivity].
  destruct (slice_step cols grid_center) as [center_y_points|e2];
    cbn [bind]; [|split; reflexivity].
  split.
  - apply for_each_ext. intros group. cbn [orb bind].
    now rewrite engine_opp.
  - apply for_each_error_ext. intros group. cbn [orb bind].
    apply reshape_error_size. now rewrite !engine_size.
Qed.

(** C6, as claimed, fails: with [fwhm = -1] the driver raises nothing and
    returns the two profiles. *)
Lemma negative_fwhm_is_not_refused :
  compute_speed_profile [agent_a; agent_b] unit_square 1 GAUSSIAN None np_nan
                        (- 1)
  = Ok [[[1]]; [[2]]]
  /\ result_error (compute_speed_profile [agent_a; agent_b] unit_square 1
                     GAUSSIAN None np_nan (- 1)) = None.
Proof.
  assert (compute_speed_profile [agent_a; agent_b] unit_square 1 GAUSSIAN None
                                np_nan (- 1) = Ok [[[1]]; [[2]]]) as H
    by (apply two_frames_profiles; [reflexivity|lra]).
  split; [exact H|now rewrite H].
Qed.

(** C9.  The driver's result is the same for any two values of
    [speed_method], and the driver never ends with the error of the branch
    "Speed method ... not accepted". *)
Theorem speed_method_is_ignored
  (data : DataFrame) (walkable_area : WalkableArea) (grid_size : R)
  (gia : option (list R)) (fill_value : np_float) (fwhm : R)
  (speed_method speed_method' : SpeedMethod) :
  compute_speed_profile data walkable_area grid_size speed_method gia
                        fill_value fwhm
  = compute_speed_profile data walkable_area grid_size speed_method' gia
                          fill_value fwhm
  /\ forall m : SpeedMethod,
       result_error (compute_speed_profile data walkable_area grid_size
                       speed_method gia fill_value fwhm)
       <> Some (SpeedMethodNotAccepted m).
Proof.
  split; [reflexivity|].
  intros m.
  destruct (compute_speed_profile data walkable_area grid_size speed_method
              gia fill_value fwhm) as [profiles|e] eqn:Hrun; cbn.
  - discriminate.
  - apply compute_speed_profile_error in Hrun.
    intros [= ->]. destruct Hrun as [H|[H|[H|H]]]; discriminate.
Qed.

(** * Further properties of the kernel *)

Lemma sqrt_2ln2_square : sqrt (2 * ln 2) * sqrt (2 * ln 2) = 2 * ln 2.
Proof.
  apply sqrt_sqrt. pose proof (ln_increasing 1 2 ltac:(lra) ltac:(lra)) as H.
  rewrite ln_1 in H. lra.
Qed.

Lemma gaussian_at_zero (fwhm : R) :
  _compute_gaussian_weights 0 fwhm = gaussian_peak fwhm.
Proof.
  rewrite gaussian_split. unfold gaussian_shape.
  replace (- 0 ^ 2 / (2 * (fwhm / (2 * sqrt (2 * ln 2))) ^ 2)) with 0
    by (unfold Rdiv; ring).
  rewrite exp_0. ring.
Qed.

Lemma gaussian_shape_half_width (fwhm : R) :
  fwhm <> 0 -> gaussian_shape (fwhm / 2) fwhm = 1 / 2.
Proof.
  intros Hf. unfold gaussian_shape.
  pose proof sqrt_2ln2_pos as Hs. pose proof sqrt_2ln2_square as Hsq.
  set (s := sqrt (2 * ln 2)) in *.
  replace (- (fwhm / 2) ^ 2 / (2 * (fwhm / (2 * s)) ^ 2))
    with (- ((s * s) / 2)) by (field; split; lra).
  rewrite Hsq. replace (2 * ln 2 / 2) with (ln 2) by field.
  rewrite exp_Ropp, exp_ln by lra. lra.
Qed.

Lemma gaussian_even (d fwhm : R) :
  _compute_gaussian_weights (- d) fwhm = _compute_gaussian_weights d fwhm.
Proof.
  unfold _compute_gaussian_weights. cbv zeta.
  replace ((- d) ^ 2) with (d ^ 2) by ring. reflexivity.
Qed.

(** X1.  [fwhm] is the full width at half maximum of the kernel: at the
    distance [fwhm / 2] on either side of the centre the density is half the
    density at the centre. *)
Theorem gaussian_half_maximum (fwhm : R) :
  fwhm <> 0 ->
  _compute_gaussian_weights (fwhm / 2) fwhm
  = _compute_gaussian_weights 0 fwhm / 2
  /\ _compute_gaussian_weights (- (fwhm / 2)) fwhm
     = _compute_gaussian_weights 0 fwhm / 2.
Proof.
  intros Hf.
  assert (_compute_gaussian_weights (fwhm / 2) fwhm
          = _compute_gaussian_weights 0 fwhm / 2) as H.
  { rewrite gaussian_at_zero, gaussian_split, gaussian_shape_half_width
      by exact Hf. field. }
  split; [exact H|]. now rewrite gaussian_even.
Qed.

Lemma gaussian_half_maximum_witness :
  _compute_gaussian_weights (3 / 2) 3 = _compute_gaussian_weights 0 3 / 2
  /\ _compute_gaussian_weights (- (3 / 2)) 3
     = _compute_gaussian_weights 0 3 / 2.
Proof. apply (gaussian_half_maximum 3). lra. Defined.

Lemma gaussian_peak_pos (fwhm : R) : 0 < fwhm -> 0 < gaussian_peak fwhm.
Proof.
  intros Hf. unfold gaussian_peak.
  pose proof sqrt_2ln2_pos as H1. pose proof sqrt_2PI_pos as H2.
  apply Rdiv_lt_0_compat; [lra|].
  apply Rmult_lt_0_compat; [|exact H2].
  apply Rdiv_lt_0_compat; lra.
Qed.

Lemma gaussian_shape_decreasing (a b fwhm : R) :
  fwhm <> 0 -> 0 <= a < b -> gaussian_shape b fwhm < gaussian_shape a fwhm.
Proof.
  intros Hf [Ha Hab]. unfold gaussian_shape. apply exp_increasing.
  pose proof sqrt_2ln2_pos as Hs.
  set (sigma := fwhm / (2 * sqrt (2 * ln 2))).
  assert (sigma <> 0) as Hsigma.
  { unfold sigma, Rdiv. apply Rmult_integral_contrapositive_currified;
      [exact Hf|]. apply Rinv_neq_0_compat. lra. }
  assert (0 < 2 * sigma ^ 2) as Hden.
  { assert (0 < sigma ^ 2) by nra. lra. }
  assert (a ^ 2 < b ^ 2) as Hsq by nra.
  unfold Rdiv. pose proof (Rinv_0_lt_compat _ Hden) as Hinv. nra.
Qed.

(** X2.  For a positive [fwhm] the kernel is never negative, is even, and
    never increases with the distance, so that its greatest value is at
    distance 0.  (That it is nowhere zero and decreases strictly holds of the
    real exponential only: [np.exp] reaches [0.0].) *)
Theorem gaussian_nonnegative_even_nonincreasing (fwhm : R) :
  0 < fwhm ->
  (forall d, 0 <= _compute_gaussian_weights d fwhm)
  /\ (forall d, _compute_gaussian_weights (- d) fwhm
                = _compute_gaussian_weights d fwhm)
  /\ (forall a b, 0 <= a <= b ->
        _compute_gaussian_weights b fwhm <= _compute_gaussian_weights a fwhm)
  /\ (forall d, _compute_gaussian_weights d fwhm
                <= _compute_gaussian_weights 0 fwhm).
Proof.
  intros Hf. pose proof (gaussian_peak_pos fwhm Hf) as Hp.
  assert (forall a b, 0 <= a <= b ->
            _compute_gaussian_weights b fwhm
            <= _compute_gaussian_weights a fwhm) as Hmono.
  { intros a b [Ha Hab]. destruct (Req_dec_T a b) as [-> | Hne]; [lra|].
    rewrite !gaussian_split. apply Rlt_le.
    apply Rmult_lt_compat_l; [exact Hp|].
    apply gaussian_shape_decreasing; lra. }
  split; [|split; [|split]].
  - intros d. rewrite gaussian_split. apply Rlt_le.
    apply Rmult_lt_0_compat; [exact Hp|apply gaussian_shape_pos].
  - intros d. apply gaussian_even.
  - exact Hmono.
  - intros d. destruct (Rle_dec 0 d) as [Hd | Hd].
    + apply Hmono. lra.
    + rewrite <- (gaussian_even d). apply Hmono. lra.
Qed.

Lemma gaussian_nonnegative_even_nonincreasing_witness :
  (forall d, 0 <= _compute_gaussian_weights d 1)
  /\ (forall d, _compute_gaussian_weights (- d) 1
                = _compute_gaussian_weights d 1)
  /\ (forall a b, 0 <= a <= b ->
        _compute_gaussian_weights b 1 <= _compute_gaussian_weights a 1)
  /\ (forall d, _compute_gaussian_weights d 1
                <= _compute_gaussian_weights 0 1).
Proof. apply (gaussian_nonnegative_even_nonincreasing 1). lra. Defined.

(** * Further properties of the engine *)

Lemma np_sum_map_plus {A : Type} (f g : A -> R) (l : list A) :
  np_sum (map (fun a => f a + g a) l) = np_sum (map f l) + np_sum (map g l).
Proof. induction l as [|a l IH]; sum_step; [|rewrite IH]; ring. Qed.

Lemma np_sum_map_const {A : Type} (c : R) (l : list A) :
  np_sum (map (fun _ => c) l) = INR (length l) * c.
Proof.
  induction l as [|a l IH]; sum_step.
  - cbn. ring.
  - rewrite IH. cbn [length]. rewrite S_INR. ring.
Qed.

Lemma np_sum_ge_term {A : Type} (f : A -> R) (l : list A) (a : A) :
  (forall b, 0 < f b) -> In a l -> f a <= np_sum (map f l).
Proof.
  intros Hf. induction l as [|b l IH]; intros Hin; [contradiction|].
  sum_step. destruct Hin as [->|Hin].
  - assert (0 <= np_sum (map f l)) as H0.
    { clear IH. induction l as [|c l IH]; sum_step; [lra|].
      specialize (Hf c). lra. }
    lra.
  - specialize (IH Hin). specialize (Hf b). lra.
Qed.

(** With an agent in the frame and a nonzero [fwhm] the normalized weights
    are the shares of the shape factors. *)
Lemma normalized_weights_shares (fd : DataFrame) (fwhm cx cy : R) :
  fwhm <> 0 -> fd <> [] ->
  normalized_weights fd fwhm cx cy
  = map (fun r => agent_shape fwhm cx cy r
                  / np_sum (map (agent_shape fwhm cx cy) fd)) fd.
Proof.
  intros Hf Hfd.
  pose proof (weights_sum_nonzero fd fwhm cx cy Hfd
                (gaussian_peak_nonzero fwhm Hf)) as HS.
  unfold normalized_weights. rewrite weights_agents at 1. rewrite map_map.
  apply map_ext. intros r. now apply normalized_weight_share.
Qed.

Lemma distance_nth (fd : DataFrame) (cx cy d : R) (k : nat) :
  nth_error (distance fd cx cy) k = Some d ->
  exists r, nth_error fd k = Some r
            /\ d = sqrt ((cx - x r) ^ 2 + (cy - y r) ^ 2).
Proof.
  unfold distance. rewrite nth_error_map.
  destruct (nth_error fd k) as [r|]; cbn; [|discriminate].
  intros [= <-]. now exists r.
Qed.

(** X3.  In a cell whose raw weights have a nonzero sum, every normalized
    weight lies in [[0, 1]], and of two agents the one farther from the cell
    centre never has the larger normalized weight. *)
Theorem normalized_weights_never_favour_the_farther_agent
  (frame_data : DataFrame) (fwhm cx cy : R) :
  fwhm <> 0 ->
  np_sum (weights frame_data fwhm cx cy) <> 0 ->
  (forall k w,
     nth_error (normalized_weights frame_data fwhm cx cy) k = Some w ->
     0 <= w <= 1)
  /\ (forall k1 k2 d1 d2 w1 w2,
        nth_error (distance frame_data cx cy) k1 = Some d1 ->
        nth_error (distance frame_data cx cy) k2 = Some d2 ->
        nth_error (normalized_weights frame_data fwhm cx cy) k1 = Some w1 ->
        nth_error (normalized_weights frame_data fwhm cx cy) k2 = Some w2 ->
        d1 <= d2 -> w2 <= w1).
Proof.
  intros Hf HS. destruct (weights_sum_nonzero_inv _ _ _ _ HS) as [Hne _].
  rewrite normalized_weights_shares by assumption.
  pose proof (shape_sum_pos frame_data fwhm cx cy Hne) as HE.
  set (E := np_sum (map (agent_shape fwhm cx cy) frame_data)) in *.
  split.
  - intros k w. rewrite nth_error_map.
    destruct (nth_error frame_data k) as [r|] eqn:Hk; cbn; [|discriminate].
    intros [= <-]. apply nth_error_In in Hk.
    pose proof (gaussian_shape_pos
                  (sqrt ((cx - x r) ^ 2 + (cy - y r) ^ 2)) fwhm) as Hs.
    fold (agent_shape fwhm cx cy r) in Hs.
    pose proof (np_sum_ge_term (agent_shape fwhm cx cy) frame_data r
                  ltac:(intros b; apply gaussian_shape_pos) Hk) as Hle.
    fold E in Hle. split.
    + apply Rlt_le. now apply Rdiv_lt_0_compat.
    + apply Rmult_le_reg_r with (r := E); [exact HE|].
      unfold Rdiv. rewrite Rmult_assoc, Rinv_l by lra. lra.
  - intros k1 k2 d1 d2 w1 w2 Hd1 Hd2.
    apply distance_nth in Hd1, Hd2.
    destruct Hd1 as (r1 & Hr1 & ->). destruct Hd2 as (r2 & Hr2 & ->).
    rewrite !nth_error_map, Hr1, Hr2. cbn. intros [= <-] [= <-] Hle.
    unfold Rdiv. apply Rmult_le_compat_r;
      [apply Rlt_le; now apply Rinv_0_lt_compat|].
    destruct Hle as [Hlt | Heq].
    + apply Rlt_le. apply gaussian_shape_decreasing; [exact Hf|].
      split; [apply sqrt_pos|exact Hlt].
    + assert (agent_shape fwhm cx cy r2 = agent_shape fwhm cx cy r1) as ->
        by (unfold agent_shape; f_equal; symmetry; exact Heq).
      lra.
Qed.

Lemma normalized_weights_never_favour_the_farther_agent_witness :
  (forall k w,
     nth_error (normalized_weights [agent_a; agent_b] 1 0 0) k = Some w ->
     0 <= w <= 1)
  /\ (forall k1 k2 d1 d2 w1 w2,
        nth_error (distance [agent_a; agent_b] 0 0) k1 = Some d1 ->
        nth_error (distance [agent_a; agent_b] 0 0) k2 = Some d2 ->
        nth_error (normalized_weights [agent_a; agent_b] 1 0 0) k1 = Some w1 ->
        nth_error (normalized_weights [agent_a; agent_b] 1 0 0) k2 = Some w2 ->
        d1 <= d2 -> w2 <= w1).
Proof.
  apply (normalized_weights_never_favour_the_farther_agent
           [agent_a; agent_b] 1 0 0).
  - lra.
  - apply weights_sum_nonzero; [discriminate|].
    apply gaussian_peak_nonzero. lra.
Defined.

Lemma np_min_In (a : R) (t : list R) : In (np_min (a :: t)) (a :: t).
Proof.
  cbn [np_min]. induction t as [|b t IH]; cbn [fold_right]; [now left|].
  destruct (Rle_dec b (fold_right Rmin a t)) as [Hle|Hgt].
  - rewrite Rmin_left by exact Hle. right. now left.
  - rewrite Rmin_right by lra. destruct IH as [<-|IH]; [now left|].
    right. now right.
Qed.

Lemma np_max_In (a : R) (t : list R) : In (np_max (a :: t)) (a :: t).
Proof.
  cbn [np_max]. induction t as [|b t IH]; cbn [fold_right]; [now left|].
  destruct (Rle_dec b (fold_right Rmax a t)) as [Hle|Hgt].
  - rewrite Rmax_right by exact Hle. destruct IH as [<-|IH]; [now left|].
    right. now right.
  - rewrite Rmax_left by lra. right. now left.
Qed.

(** A cell's value lies between any two bounds of the speeds of its frame. *)
Lemma weighted_speed_between (fd : DataFrame) (fwhm cx cy lo hi : R) :
  fwhm <> 0 -> fd <> [] ->
  (forall r, In r fd -> lo <= speed r <= hi) ->
  lo <= weighted_speed fd fwhm cx cy <= hi.
Proof.
  intros Hf Hfd Hb.
  pose proof (weights_sum_nonzero fd fwhm cx cy Hfd
                (gaussian_peak_nonzero fwhm Hf)) as HS.
  pose proof (weighted_speed_bounds fd fwhm cx cy HS) as [Hmin Hmax].
  assert (forall v, In v (map speed fd) -> lo <= v <= hi) as Hb'.
  { intros v Hv. apply in_map_iff in Hv. destruct Hv as (r & <- & Hr).
    now apply Hb. }
  destruct (map speed fd) as [|s0 speeds] eqn:E.
  { destruct fd; [congruence|discriminate]. }
  pose proof (Hb' _ (np_min_In s0 speeds)).
  pose proof (Hb' _ (np_max_In s0 speeds)). lra.
Qed.

(** X4.  When all agents of a frame move at the same speed [v] (a frame
    with a single agent in particular), every cell whose raw weights have a
    nonzero sum holds [v]. *)
Theorem uniform_speed_cell_holds_that_speed
  (frame_data : DataFrame) (center_x center_y : list R) (fwhm v : R)
  (i j : nat) (cx cy : R) :
  nth_error center_y i = Some cy ->
  nth_error center_x j = Some cx ->
  np_sum (weights frame_data fwhm cx cy) <> 0 ->
  (forall r, In r frame_data -> speed r = v) ->
  cell_at (_compute_gaussian_weighted_speed_profile
             frame_data center_x center_y fwhm) i j
  = Some v.
Proof.
  intros Hi Hj HS Hv. rewrite (engine_cell_at _ _ _ _ _ _ _ _ Hi Hj).
  f_equal. destruct (weights_sum_nonzero_inv _ _ _ _ HS) as [Hfd Hp].
  assert (fwhm <> 0) as Hf.
  { intros ->. apply Hp. apply gaussian_peak_zero. }
  pose proof (weighted_speed_between frame_data fwhm cx cy v v Hf Hfd) as H.
  assert (v <= weighted_speed frame_data fwhm cx cy <= v) as [H1 H2]; [|lra].
  apply H. intros r Hr. rewrite (Hv r Hr). lra.
Qed.

Lemma uniform_speed_cell_holds_that_speed_witness :
  cell_at (_compute_gaussian_weighted_speed_profile
             [agent_b; mkRow 2 0 0 2] [1 / 4; 3 / 4] [3 / 4; 1 / 4] 1) 1 0
  = Some 2.
Proof.
  apply (uniform_speed_cell_holds_that_speed
           [agent_b; mkRow 2 0 0 2] [1 / 4; 3 / 4] [3 / 4; 1 / 4] 1 2 1 0
           (1 / 4) (1 / 4)).
  - reflexivity.
  - reflexivity.
  - apply weights_sum_nonzero; [discriminate|].
    apply gaussian_peak_nonzero. lra.
  - intros r [<-|[<-|[]]]; reflexivity.
Defined.

Lemma affine_speeds_weights (a b : R) (fd : DataFrame) (fwhm cx cy : R) :
  weights (affine_speeds a b fd) fwhm cx cy = weights fd fwhm cx cy.
Proof.
  rewrite !weights_agents. unfold affine_speeds. rewrite map_map.
  apply map_ext. reflexivity.
Qed.

Lemma normalized_weights_total (fd : DataFrame) (fwhm cx cy : R) :
  fwhm <> 0 -> fd <> [] ->
  np_sum (map (fun r => agent_weight fwhm cx cy r
                        / np_sum (weights fd fwhm cx cy)) fd) = 1.
Proof.
  intros Hf Hfd.
  pose proof (weights_sum_nonzero fd fwhm cx cy Hfd
                (gaussian_peak_nonzero fwhm Hf)) as HS.
  rewrite <- (map_map (agent_weight fwhm cx cy)
                      (fun w => w / np_sum (weights fd fwhm cx cy))).
  rewrite np_sum_map_div, <- weights_agents. now field.
Qed.

Lemma weighted_speed_affine (a b : R) (fd : DataFrame) (fwhm cx cy : R) :
  fwhm <> 0 -> fd <> [] ->
  weighted_speed (affine_speeds a b fd) fwhm cx cy
  = a * weighted_speed fd fwhm cx cy + b.
Proof.
  intros Hf Hfd. rewrite !weighted_speed_agents, affine_speeds_weights.
  unfold affine_speeds. rewrite map_map. cbn [speed].
  set (S := np_sum (weights fd fwhm cx cy)).
  rewrite (map_ext _ (fun r => a * (agent_weight fwhm cx cy r / S * speed r)
                               + b * (agent_weight fwhm cx cy r / S)))
    by (intros r; unfold agent_weight; cbn [x y]; ring).
  rewrite np_sum_map_plus, !np_sum_map_scale.
  unfold S. rewrite normalized_weights_total by assumption. ring.
Qed.

(** X5.  An affine change of the unit of speed commutes with the engine:
    with every speed [s] replaced by [a * s + b], every cell value [v]
    becomes [a * v + b]. *)
Theorem engine_commutes_with_affine_speeds
  (a b : R) (frame_data : DataFrame) (center_x center_y : list R) (fwhm : R) :
  fwhm <> 0 -> frame_data <> [] ->
  _compute_gaussian_weighted_speed_profile
    (affine_speeds a b frame_data) center_x center_y fwhm
  = map (map (fun v => a * v + b))
        (_compute_gaussian_weighted_speed_profile
           frame_data center_x center_y fwhm).
Proof.
  intros Hf Hfd. rewrite !engine_by_rows, map_map.
  apply map_ext. intros cy. rewrite map_map. apply map_ext. intros cx.
  now apply weighted_speed_affine.
Qed.

Lemma engine_commutes_with_affine_speeds_witness :
  _compute_gaussian_weighted_speed_profile
    (affine_speeds (18 / 5) 0 [agent_a; agent_b]) [1 / 2] [1 / 2] 1
  = map (map (fun v => 18 / 5 * v + 0))
        (_compute_gaussian_weighted_speed_profile
           [agent_a; agent_b] [1 / 2] [1 / 2] 1).
Proof.
  apply (engine_commutes_with_affine_speeds
           (18 / 5) 0 [agent_a; agent_b] [1 / 2] [1 / 2] 1).
  - lra.
  - discriminate.
Defined.

(** X6.  A cell at the same distance from every agent of the frame, and
    whose raw weights have a nonzero sum, holds the arithmetic mean of the
    agents' speeds. *)
Theorem equidistant_cell_holds_the_mean_speed
  (frame_data : DataFrame) (center_x center_y : list R) (fwhm : R)
  (i j : nat) (cx cy d : R) :
  nth_error center_y i = Some cy ->
  nth_error center_x j = Some cx ->
  np_sum (weights frame_data fwhm cx cy) <> 0 ->
  (forall d', In d' (distance frame_data cx cy) -> d' = d) ->
  cell_at (_compute_gaussian_weighted_speed_profile
             frame_data center_x center_y fwhm) i j
  = Some (np_sum (map speed frame_data) / INR (length frame_data)).
Proof.
  intros Hi Hj HS Hd. rewrite (engine_cell_at _ _ _ _ _ _ _ _ Hi Hj).
  f_equal. rewrite weighted_speed_agents.
  assert (forall r, In r frame_data ->
            agent_weight fwhm cx cy r = _compute_gaussian_weights d fwhm) as Hw.
  { intros r Hr. unfold agent_weight. f_equal. apply Hd.
    unfold distance. apply in_map_iff. now exists r. }
  assert (np_sum (weights frame_data fwhm cx cy)
          = INR (length frame_data) * _compute_gaussian_weights d fwhm) as ES.
  { rewrite weights_agents, <- np_sum_map_const. f_equal.
    apply map_ext_in. exact Hw. }
  rewrite ES in *.
  rewrite (map_ext_in
             (fun r => agent_weight fwhm cx cy r
                       / (INR (length frame_data)
                          * _compute_gaussian_weights d fwhm) * speed r)
             (fun r => / INR (length frame_data) * speed r)).
  - rewrite np_sum_map_scale. unfold Rdiv. ring.
  - intros r Hr. cbv beta. rewrite (Hw r Hr).
    assert (INR (length frame_data) <> 0
            /\ _compute_gaussian_weights d fwhm <> 0) as [Hn Hg].
    { split; intros E; apply HS; rewrite E; ring. }
    now field.
Qed.

Lemma equidistant_cell_holds_the_mean_speed_witness :
  cell_at (_compute_gaussian_weighted_speed_profile
             [agent_a; agent_b] [1 / 2] [1 / 2] 1) 0 0
  = Some (np_sum (map speed [agent_a; agent_b])
          / INR (length [agent_a; agent_b])).
Proof.
  apply (equidistant_cell_holds_the_mean_speed
           [agent_a; agent_b] [1 / 2] [1 / 2] 1 0 0 (1 / 2) (1 / 2)
           (sqrt (1 / 2))).
  - reflexivity.
  - reflexivity.
  - apply weights_sum_nonzero; [discriminate|].
    apply gaussian_peak_nonzero. lra.
  - intros d' [<-|[<-|[]]]; cbn [x y agent_a agent_b]; f_equal; lra.
Defined.






(** * Further properties of the grid builder *)

(** X9.  The grid builder raises exactly when [grid_size] is 0.  For any
    other [grid_size], negative ones included, it returns [rows] and [cols]
    that are at least -1, and the number of cells is the product of the two
    counts, each read as 0 when it is negative. *)
Theorem grid_builder_counts_are_consistent
  (walkable_area : WalkableArea) (grid_size : R) :
  (grid_size = 0
   /\ get_grid_cells walkable_area grid_size = Err ArangeZeroStep)
  \/ (grid_size <> 0
      /\ exists grid_cells rows cols,
           get_grid_cells walkable_area grid_size
           = Ok (grid_cells, rows, cols)
           /\ (-1 <= rows)%Z /\ (-1 <= cols)%Z
           /\ length grid_cells = (Z.to_nat rows * Z.to_nat cols)%nat).
Proof.
  destruct (Req_dec_T grid_size 0) as [-> | Hg].
  - left. split; [reflexivity|apply get_grid_cells_zero_step].
  - right. split; [exact Hg|].
    destruct (bounds walkable_area) as [[[min_x min_y] max_x] max_y] eqn:Hb.
    eexists _, _, _. split.
    + apply (get_grid_cells_ok _ _ _ _ _ _ Hb Hg).
    + rewrite length_lattice. repeat split; lia.
Qed.

(** * Further properties of the batch driver *)

(** The driver on any grid that has cells, whatever the signs of
    [grid_size] and of the extents. *)
Lemma compute_speed_profile_on_lattice
  (data : DataFrame) (wa : WalkableArea) (g : R) (m : SpeedMethod)
  (gia : option (list R)) (fv : np_float) (fwhm min_x min_y max_x max_y : R) :
  bounds wa = (min_x, min_y, max_x, max_y) ->
  g <> 0 ->
  (0 < axis_length (max_y - min_y) g - 1)%nat ->
  (0 < axis_length (max_x - min_x) g - 1)%nat ->
  compute_speed_profile data wa g m gia fv fwhm
  = Ok (map (fun group : Z * DataFrame =>
               _compute_gaussian_weighted_speed_profile
                 (snd group)
                 (grid_center_x min_x g (axis_length (max_x - min_x) g - 1))
                 (grid_center_y max_y g (axis_length (max_y - min_y) g - 1))
                 fwhm)
            (groupby data)).
Proof.
  intros Hb Hg Hr Hc. unfold compute_speed_profile.
  rewrite (get_grid_cells_ok _ _ _ _ _ _ Hb Hg). cbn [bind].
  set (cols := (axis_length (max_x - min_x) g - 1)%nat) in *.
  set (rows := (axis_length (max_y - min_y) g - 1)%nat) in *.
  replace (Z.of_nat (axis_length (max_x - min_x) g) - 1)%Z
    with (Z.of_nat cols) by (unfold cols; lia).
  replace (Z.of_nat (axis_length (max_y - min_y) g) - 1)%Z
    with (Z.of_nat rows) by (unfold rows; lia).
  set (L := lattice min_x max_y g rows cols).
  assert (length L = (rows * cols)%nat) as HL by apply length_lattice.
  rewrite np_vectorize_ok
    by (intros E; rewrite E in HL; cbn in HL; nia).
  cbn [bind].
  assert (slice_to (Z.of_nat cols) (map shapely_centroid L)
          = map shapely_centroid (map (lattice_cell min_x max_y g 0) (seq 0 cols)))
    as ->.
  { unfold slice_to. destruct (Z.ltb_spec (Z.of_nat cols) 0); [lia|].
    rewrite Nat2Z.id, firstn_map. unfold L.
    now rewrite lattice_first_row. }
  assert (slice_step (Z.of_nat cols) (map shapely_centroid L)
          = Ok (map (fun j => shapely_centroid (lattice_cell min_x max_y g j 0))
                    (seq 0 rows))) as ->.
  { unfold slice_step. destruct (Z.eqb_spec (Z.of_nat cols) 0); [lia|].
    destruct (Z.ltb_spec (Z.of_nat cols) 0); [lia|].
    rewrite Nat2Z.id. f_equal. apply stride_lines.
    - exact Hc.
    - now rewrite length_map.
    - intros j Hj. rewrite nth_error_map.
      replace (j * cols)%nat with (j * cols + 0)%nat by lia.
      unfold L. now rewrite nth_error_lattice. }
  cbn [bind]. rewrite !map_map.
  rewrite (map_ext _ _ (centroid_x min_x max_y g 0)).
  rewrite (map_ext (fun j => get_y (shapely_centroid (lattice_cell min_x max_y g j 0)))
                   (fun j => max_y - (INR j + 1 / 2) * g))
    by (intros j; apply centroid_y).
  fold (grid_center_x min_x g cols). fold (grid_center_y max_y g rows).
  apply for_each_ok. intros group _. cbn [orb bind].
  destruct (engine_shape (snd group) (grid_center_x min_x g cols)
                         (grid_center_y max_y g rows) fwhm) as [Hlen Hlines].
  apply reshape_same_shape.
  - rewrite Hlen. unfold grid_center_y. now rewrite length_map, length_seq.
  - unfold grid_center_x in Hlines at 1.
    now rewrite length_map, length_seq in Hlines.
Qed.

Lemma compute_speed_profile_empty_lattice
  (data : DataFrame) (wa : WalkableArea) (g : R) (m : SpeedMethod)
  (gia : option (list R)) (fv : np_float) (fwhm min_x min_y max_x max_y : R) :
  bounds wa = (min_x, min_y, max_x, max_y) ->
  g <> 0 ->
  (axis_length (max_y - min_y) g - 1 = 0)%nat
  \/ (axis_length (max_x - min_x) g - 1 = 0)%nat ->
  compute_speed_profile data wa g m gia fv fwhm = Err VectorizeSizeZero.
Proof.
  intros Hb Hg Hzero.
  pose proof (get_grid_cells_ok _ _ _ _ _ _ Hb Hg) as Hget.
  rewrite lattice_nil in Hget by (destruct Hzero as [-> | ->]; lia).
  eapply compute_speed_profile_no_cells. exact Hget.
Qed.

(** X10.  The driver has three outcomes, decided by the grid alone.  With
    [grid_size = 0] it ends with the zero-step error of [np.arange]; on a
    grid without cells it ends with the size-0 error of [np.vectorize], even
    for an empty table; otherwise it raises nothing (slicing and reshaping
    never fail) and returns one profile per distinct frame identifier, each
    of [rows] lines of [cols] values for the [rows] and [cols] of the grid
    builder. *)
Theorem driver_outcome_is_decided_by_the_grid
  (data : DataFrame) (walkable_area : WalkableArea) (grid_size : R)
  (speed_method : SpeedMethod) (gia : option (list R)) (fill_value : np_float)
  (fwhm : R) :
  (grid_size = 0
   /\ compute_speed_profile data walkable_area grid_size speed_method gia
                            fill_value fwhm = Err ArangeZeroStep)
  \/ (grid_size <> 0
      /\ (exists rows cols,
            get_grid_cells walkable_area grid_size = Ok ([], rows, cols))
      /\ compute_speed_profile data walkable_area grid_size speed_method gia
                               fill_value fwhm = Err VectorizeSizeZero)
  \/ (exists grid_cells rows cols profiles,
        grid_cells <> []
        /\ get_grid_cells walkable_area grid_size
           = Ok (grid_cells, rows, cols)
        /\ compute_speed_profile data walkable_area grid_size speed_method
                                 gia fill_value fwhm = Ok profiles
        /\ length profiles = length (sorted_keys (map frame data))
        /\ forall p, In p profiles ->
             Z.of_nat (length p) = rows
             /\ forall line, In line p -> Z.of_nat (length line) = cols).
Proof.
  destruct (Req_dec_T grid_size 0) as [-> | Hg].
  { left. split; [reflexivity|apply compute_speed_profile_zero_step]. }
  right.
  destruct (bounds walkable_area) as [[[min_x min_y] max_x] max_y] eqn:Hb.
  pose proof (get_grid_cells_ok _ _ _ _ _ _ Hb Hg) as Hget.
  set (rows := (axis_length (max_y - min_y) grid_size - 1)%nat) in *.
  set (cols := (axis_length (max_x - min_x) grid_size - 1)%nat) in *.
  destruct (Nat.eq_dec rows 0) as [Er|Hr];
    [|destruct (Nat.eq_dec cols 0) as [Ec|Hc]].
  - left. split; [exact Hg|].
    rewrite lattice_nil in Hget by (rewrite Er; lia). split.
    + eexists _, _. exact Hget.
    + eapply compute_speed_profile_no_cells. exact Hget.
  - left. split; [exact Hg|].
    rewrite lattice_nil in Hget by (rewrite Ec; lia). split.
    + eexists _, _. exact Hget.
    + eapply compute_speed_profile_no_cells. exact Hget.
  - right. eexists _, _, _, _. split; [|split; [exact Hget|split; [|split]]].
    + intros E. apply (f_equal (@length _)) in E.
      rewrite length_lattice in E. cbn in E. nia.
    + apply (compute_speed_profile_on_lattice _ _ _ _ _ _ _ _ _ _ _ Hb Hg);
        fold rows; fold cols; lia.
    + unfold groupby. now rewrite !length_map.
    + intros p Hp. apply in_map_iff in Hp. destruct Hp as (group & <- & _).
      fold rows. fold cols.
      destruct (engine_shape (snd group) (grid_center_x min_x grid_size cols)
                  (grid_center_y max_y grid_size rows) fwhm) as [Hlen Hlines].
      split.
      * rewrite Hlen. unfold grid_center_y. rewrite length_map, length_seq.
        unfold rows. lia.
      * intros line Hline. rewrite Forall_forall in Hlines.
        rewrite (Hlines line Hline). unfold grid_center_x.
        rewrite length_map, length_seq. unfold cols. lia.
Qed.

Lemma sorted_lists_same_members (l1 l2 : list Z) :
  StronglySorted Z.lt l1 -> StronglySorted Z.lt l2 ->
  (forall f, In f l1 <-> In f l2) -> l1 = l2.
Proof.
  intros H1. revert l2.
  induction H1 as [|a l1 Hs1 IH Ha]; intros l2 H2 Hmem.
  - destruct l2 as [|b l2]; [reflexivity|].
    exfalso. apply (Hmem b). now left.
  - destruct H2 as [|b l2 Hs2 Hb].
    { exfalso. apply (Hmem a). now left. }
    rewrite Forall_forall in Ha, Hb.
    assert (a = b) as ->.
    { pose proof (proj1 (Hmem a) (or_introl eq_refl)) as [E|Hin]; [congruence|].
      pose proof (proj2 (Hmem b) (or_introl eq_refl)) as [E|Hin']; [congruence|].
      specialize (Ha _ Hin'). specialize (Hb _ Hin). lia. }
    f_equal. apply IH; [exact Hs2|].
    intros f. split; intros Hf.
    + pose proof (proj1 (Hmem f) (or_intror Hf)) as [E|Hin]; [|exact Hin].
      specialize (Ha _ Hf). lia.
    + pose proof (proj2 (Hmem f) (or_intror Hf)) as [E|Hin]; [|exact Hin].
      specialize (Hb _ Hf). lia.
Qed.

Lemma sorted_keys_Permutation (column column' : list Z) :
  Permutation column column' -> sorted_keys column = sorted_keys column'.
Proof.
  intros HP. apply sorted_lists_same_members; try apply sorted_keys_sorted.
  intros f. rewrite !sorted_keys_In. split; intros Hf.
  - now apply (Permutation_in _ HP).
  - now apply (Permutation_in _ (Permutation_sym HP)).
Qed.

Lemma rows_of_frame_Permutation (f : Z) (data data' : DataFrame) :
  Permutation data data' ->
  Permutation (rows_of_frame f data) (rows_of_frame f data').
Proof.
  unfold rows_of_frame.
  induction 1 as [| r l l' _ IH | r r' l | l l' l'' _ IH1 _ IH2]; cbn.
  - constructor.
  - destruct (frame r =? f)%Z; [now constructor|exact IH].
  - destruct (frame r =? f)%Z, (frame r' =? f)%Z;
      try apply Permutation_refl. apply perm_swap.
  - now transitivity (filter (fun r => (frame r =? f)%Z) l').
Qed.

Lemma engine_Permutation (fd fd' : DataFrame) (cxs cys : list R) (fwhm : R) :
  Permutation fd fd' ->
  _compute_gaussian_weighted_speed_profile fd cxs cys fwhm
  = _compute_gaussian_weighted_speed_profile fd' cxs cys fwhm.
Proof.
  intros HP. rewrite !engine_by_rows.
  apply map_ext. intros cy. apply map_ext. intros cx.
  now apply weighted_speed_Permutation.
Qed.

Lemma for_each_map_ext {A B C : Type} (body : B -> result C) (h h' : A -> B)
  (l : list A) :
  (forall a, In a l -> body (h a) = body (h' a)) ->
  for_each body (map h l) = for_each body (map h' l).
Proof.
  induction l as [|a l IH]; intros H; cbn [map for_each]; [reflexivity|].
  rewrite (H a) by now left.
  rewrite IH by (intros b Hb; apply H; now right). reflexivity.
Qed.

(** X11.  The driver's result does not depend on the order of the rows of
    the table: any permutation of the rows gives the same profiles in the
    same order, or the same exception. *)
Theorem driver_independent_of_row_order
  (data data' : DataFrame) (walkable_area : WalkableArea) (grid_size : R)
  (speed_method : SpeedMethod) (gia : option (list R)) (fill_value : np_float)
  (fwhm : R) :
  Permutation data data' ->
  compute_speed_profile data walkable_area grid_size speed_method gia
                        fill_value fwhm
  = compute_speed_profile data' walkable_area grid_size speed_method gia
                          fill_value fwhm.
Proof.
  intros HP. unfold compute_speed_profile.
  destruct (get_grid_cells walkable_area grid_size)
    as [[[cells rows] cols]|e0]; cbn [bind]; [|reflexivity].
  destruct (np_vectorize shapely_centroid cells) as [grid_center|e1];
    cbn [bind]; [|reflexivity].
  destruct (slice_step cols grid_center) as [center_y_points|e2];
    cbn [bind]; [|reflexivity].
  unfold groupby.
  rewrite <- (sorted_keys_Permutation (map frame data) (map frame data'))
    by now apply Permutation_map.
  apply for_each_map_ext. intros f _. cbn [snd orb bind].
  now rewrite (engine_Permutation (rows_of_frame f data)
                 (rows_of_frame f data')) by now apply rows_of_frame_Permutation.
Qed.

Lemma driver_independent_of_row_order_witness :
  compute_speed_profile [agent_a; agent_b; mkRow 1 1 0 3] unit_square (1 / 2)
                        GAUSSIAN None np_nan 1
  = compute_speed_profile [mkRow 1 1 0 3; agent_b; agent_a] unit_square (1 / 2)
                          GAUSSIAN None np_nan 1.
Proof.
  apply (driver_independent_of_row_order
           [agent_a; agent_b; mkRow 1 1 0 3] [mkRow 1 1 0 3; agent_b; agent_a]).
  apply Permutation_rev.
Defined.

(** * Trajectory preparation: the projection *)

Lemma np_radians_range (lat : R) :
  -90 < lat < 90 ->
  - (PI / 2) < AnimationTab.np_radians lat < PI / 2.
Proof.
  intros [H1 H2]. unfold AnimationTab.np_radians.
  pose proof PI_RGT_0. split; nra.
Qed.

(** X14.  Away from the poles [degrees_to_meters] loses nothing: two points
    with the same image have the same latitude and the same longitude. *)
Theorem degrees_to_meters_is_injective (lat lon lat' lon' : R) :
  -90 < lat < 90 ->
  AnimationTab.degrees_to_meters lat lon
  = AnimationTab.degrees_to_meters lat' lon' ->
  lat = lat' /\ lon = lon'.
Proof.
  intros Hlat E. unfold AnimationTab.degrees_to_meters in E. cbv zeta in E.
  injection E as Ex Ey. pose proof PI_RGT_0 as Hpi.
  assert (lat = lat') as <-.
  { unfold AnimationTab.np_radians in Ey.
    apply Rmult_eq_reg_l in Ey; [|lra].
    apply Rmult_eq_reg_r in Ey; [exact Ey|lra]. }
  split; [reflexivity|].
  pose proof (np_radians_range lat Hlat) as [H1 H2].
  pose proof (cos_gt_0 _ H1 H2) as Hcos.
  apply Rmult_eq_reg_r in Ex; [|lra].
  apply Rmult_eq_reg_l in Ex; [|lra].
  unfold AnimationTab.np_radians in Ex.
  apply Rmult_eq_reg_r in Ex; [exact Ex|lra].
Qed.

Lemma degrees_to_meters_is_injective_witness : 45 = 45 /\ 4 = 4.
Proof.
  apply (degrees_to_meters_is_injective 45 4 45 4); [lra|reflexivity].
Defined.

(** X15.  The projection bends meridians: for a move due north in the
    northern hemisphere at a nonzero longitude the [x] coordinate changes,
    so the planar distance between the two images is strictly greater than
    the length [R * (lat2 - lat1)] (in radians) of the meridian arc. *)
Theorem northward_move_is_lengthened (lat1 lat2 lon : R) :
  0 <= lat1 < lat2 -> lat2 <= 90 -> lon <> 0 ->
  fst (AnimationTab.degrees_to_meters lat2 lon)
  <> fst (AnimationTab.degrees_to_meters lat1 lon)
  /\ 6371000 * AnimationTab.np_radians (lat2 - lat1)
     < sqrt ((fst (AnimationTab.degrees_to_meters lat2 lon)
              - fst (AnimationTab.degrees_to_meters lat1 lon)) ^ 2
             + (snd (AnimationTab.degrees_to_meters lat2 lon)
                - snd (AnimationTab.degrees_to_meters lat1 lon)) ^ 2).
Proof.
  intros [H0 H12] H90 Hlon. pose proof PI_RGT_0 as Hpi.
  unfold AnimationTab.degrees_to_meters. cbv zeta. cbn [fst snd].
  unfold AnimationTab.np_radians.
  assert (0 < PI / 180 /\ 180 * (PI / 180) = PI) as [Hk Ek]
    by (split; [lra|field]).
  set (k := PI / 180) in *.
  set (a1 := lat1 * k). set (a2 := lat2 * k).
  assert (0 <= a1 /\ a1 < a2 /\ a2 <= PI) as (Ha0 & Ha12 & Hapi).
  { unfold a1, a2. split; [|split].
    - apply Rmult_le_pos; lra.
    - apply Rmult_lt_compat_r; lra.
    - apply Rle_trans with (90 * k); [|lra].
      apply Rmult_le_compat_r; lra. }
  assert (cos a2 < cos a1) as Hcos
    by (apply cos_decreasing_1; lra).
  set (l := lon * k).
  assert (l <> 0) as Hl.
  { unfold l. apply Rmult_integral_contrapositive_currified; lra. }
  assert (6371000 * l * cos a2 - 6371000 * l * cos a1 <> 0) as Hdx.
  { replace (6371000 * l * cos a2 - 6371000 * l * cos a1)
      with (6371000 * l * (cos a2 - cos a1)) by ring.
    apply Rmult_integral_contrapositive_currified; [|lra].
    apply Rmult_integral_contrapositive_currified; [lra|exact Hl]. }
  split; [lra|].
  set (dx := 6371000 * l * cos a2 - 6371000 * l * cos a1) in *.
  replace (6371000 * ((lat2 - lat1) * k))
    with (6371000 * a2 - 6371000 * a1) by (unfold a1, a2; ring).
  set (dy := 6371000 * a2 - 6371000 * a1).
  assert (0 < dy) as Hdy by (unfold dy; lra).
  rewrite <- (sqrt_pow2 dy) at 1 by lra.
  apply sqrt_lt_1.
  - apply pow2_ge_0.
  - apply Rplus_le_le_0_compat; apply pow2_ge_0.
  - assert (0 < dx ^ 2) as Hsq.
    { destruct (Rtotal_order dx 0) as [Hn|[Hz|Hp]]; [nra|contradiction|nra]. }
    lra.
Qed.

Lemma northward_move_is_lengthened_witness :
  fst (AnimationTab.degrees_to_meters 46 4)
  <> fst (AnimationTab.degrees_to_meters 45 4)
  /\ 6371000 * AnimationTab.np_radians (46 - 45)
     < sqrt ((fst (AnimationTab.degrees_to_meters 46 4)
              - fst (AnimationTab.degrees_to_meters 45 4)) ^ 2
             + (snd (AnimationTab.degrees_to_meters 46 4)
                - snd (AnimationTab.degrees_to_meters 45 4)) ^ 2).
Proof.
  apply (northward_move_is_lengthened 45 46 4); lra.
Defined.

(** * Trajectory preparation: rounding and the time column *)

Lemma floor_spec (r : R) : IZR (up r - 1) <= r < IZR (up r - 1) + 1.
Proof.
  rewrite minus_IZR. destruct (archimed r) as [H1 H2]. lra.
Qed.

Lemma np_rint_close (r : R) :
  IZR (AnimationTab.np_rint r) - 1 / 2 <= r
  <= IZR (AnimationTab.np_rint r) + 1 / 2.
Proof.
  unfold AnimationTab.np_rint. cbv zeta.
  pose proof (floor_spec r) as [H1 H2].
  destruct (Rlt_dec (r - IZR (up r - 1)) (1 / 2)) as [Hlt|Hge]; [lra|].
  destruct (Rlt_dec (1 / 2) (r - IZR (up r - 1))) as [Hgt|Hle].
  - rewrite plus_IZR. lra.
  - destruct (Z.even (up r - 1)); [lra|]. rewrite plus_IZR. lra.
Qed.

Lemma np_rint_IZR (k : Z) : AnimationTab.np_rint (IZR k) = k.
Proof.
  unfold AnimationTab.np_rint. cbv zeta.
  assert (up (IZR k) = (k + 1)%Z) as ->.
  { symmetry. apply tech_up; rewrite plus_IZR; lra. }
  replace (k + 1 - 1)%Z with k by lia.
  destruct (Rlt_dec (IZR k - IZR k) (1 / 2)); [reflexivity|lra].
Qed.

Lemma np_rint_monotone (r1 r2 : R) :
  r1 <= r2 -> (AnimationTab.np_rint r1 <= AnimationTab.np_rint r2)%Z.
Proof.
  intros Hle. destruct (Req_dec_T r1 r2) as [->|Hne]; [lia|].
  pose proof (np_rint_close r1) as [_ H1].
  pose proof (np_rint_close r2) as [H2 _].
  destruct (Z_le_gt_dec (AnimationTab.np_rint r1) (AnimationTab.np_rint r2))
    as [Hok|Hgt]; [exact Hok|].
  exfalso.
  assert (IZR (AnimationTab.np_rint r2) + 1 <= IZR (AnimationTab.np_rint r1))
    as Hz by (rewrite <- plus_IZR; apply IZR_le; lia).
  pose proof (np_rint_close r1) as [H3 _].
  pose proof (np_rint_close r2) as [_ H4].
  lra.
Qed.

Lemma pow10_pos (n : nat) : 0 < 10 ^ n.
Proof. apply pow_lt. lra. Qed.

Lemma np_round_zero (n : nat) : AnimationTab.np_round n 0 = 0.
Proof.
  unfold AnimationTab.np_round. rewrite Rmult_0_l.
  rewrite (np_rint_IZR 0). unfold Rdiv. ring.
Qed.

Lemma np_round_monotone (n : nat) (r1 r2 : R) :
  r1 <= r2 -> AnimationTab.np_round n r1 <= AnimationTab.np_round n r2.
Proof.
  intros Hle. unfold AnimationTab.np_round. pose proof (pow10_pos n) as Hp.
  apply Rmult_le_compat_r; [apply Rlt_le; now apply Rinv_0_lt_compat|].
  apply IZR_le, np_rint_monotone. nra.
Qed.

Lemma np_round_close (n : nat) (r : R) :
  Rabs (AnimationTab.np_round n r - r) <= 1 / (2 * 10 ^ n).
Proof.
  unfold AnimationTab.np_round. pose proof (pow10_pos n) as Hp.
  pose proof (np_rint_close (r * 10 ^ n)) as [H1 H2].
  set (z := IZR (AnimationTab.np_rint (r * 10 ^ n))) in *.
  replace (z / 10 ^ n - r) with ((z - r * 10 ^ n) / 10 ^ n) by (field; lra).
  replace (1 / (2 * 10 ^ n)) with ((1 / 2) / 10 ^ n) by (field; lra).
  unfold Rdiv at 1. rewrite Rabs_mult, (Rabs_pos_eq (/ 10 ^ n))
    by (apply Rlt_le; now apply Rinv_0_lt_compat).
  apply Rmult_le_compat_r; [apply Rlt_le; now apply Rinv_0_lt_compat|].
  apply Rabs_le. lra.
Qed.

Lemma np_round_fixed (n : nat) (r : R) :
  AnimationTab.np_round n (AnimationTab.np_round n r)
  = AnimationTab.np_round n r.
Proof.
  unfold AnimationTab.np_round at 1 3. pose proof (pow10_pos n) as Hp.
  unfold AnimationTab.np_round.
  replace (IZR (AnimationTab.np_rint (r * 10 ^ n)) / 10 ^ n * 10 ^ n)
    with (IZR (AnimationTab.np_rint (r * 10 ^ n))) by (field; lra).
  now rewrite np_rint_IZR.
Qed.

Lemma adjust_time_rows (row0 : AnimationTab.traj) (rest : list AnimationTab.traj) :
  AnimationTab.adjust_time (row0 :: rest)
  = AnimationTab.Returns
      (map (fun r => AnimationTab.mkTraj
                       (AnimationTab.id r)
                       (AnimationTab.np_round
                          1 (AnimationTab.t_s r - AnimationTab.t_s row0))
                       (AnimationTab.lon_wgs84 r) (AnimationTab.lat_wgs84 r))
           (row0 :: rest)).
Proof.
  unfold AnimationTab.adjust_time. cbv zeta. now rewrite map_map.
Qed.

(** X16.  [adjust_time] raises [KeyError] on a table without rows.  On any
    other table it returns as many rows; the first time becomes 0; every
    time is its offset from the first one within 0.05 s; the other columns
    are unchanged; and the order of the times is kept: a row that was not
    later than another is not later after the adjustment. *)
Theorem adjust_time_starts_at_zero_and_keeps_order :
  AnimationTab.adjust_time [] = AnimationTab.Raises AnimationTab.KeyError
  /\ forall row0 rest,
       exists row0' rest',
         AnimationTab.adjust_time (row0 :: rest)
         = AnimationTab.Returns (row0' :: rest')
         /\ AnimationTab.t_s row0' = 0
         /\ length rest' = length rest
         /\ (forall i r r',
               nth_error (row0 :: rest) i = Some r ->
               nth_error (row0' :: rest') i = Some r' ->
               AnimationTab.id r' = AnimationTab.id r
               /\ AnimationTab.lon_wgs84 r' = AnimationTab.lon_wgs84 r
               /\ AnimationTab.lat_wgs84 r' = AnimationTab.lat_wgs84 r
               /\ Rabs (AnimationTab.t_s r'
                        - (AnimationTab.t_s r - AnimationTab.t_s row0))
                  <= 1 / 20)
         /\ (forall i j ri rj ri' rj',
               nth_error (row0 :: rest) i = Some ri ->
               nth_error (row0 :: rest) j = Some rj ->
               nth_error (row0' :: rest') i = Some ri' ->
               nth_error (row0' :: rest') j = Some rj' ->
               AnimationTab.t_s ri <= AnimationTab.t_s rj ->
               AnimationTab.t_s ri' <= AnimationTab.t_s rj').
Proof.
  split; [reflexivity|]. intros row0 rest.
  set (h := fun r => AnimationTab.mkTraj
                       (AnimationTab.id r)
                       (AnimationTab.np_round
                          1 (AnimationTab.t_s r - AnimationTab.t_s row0))
                       (AnimationTab.lon_wgs84 r) (AnimationTab.lat_wgs84 r)).
  exists (h row0), (map h rest). split; [|split; [|split; [|split]]].
  - apply adjust_time_rows.
  - unfold h. cbn [AnimationTab.t_s].
    replace (AnimationTab.t_s row0 - AnimationTab.t_s row0) with 0 by ring.
    apply np_round_zero.
  - apply length_map.
  - intros i r r' Hr Hr'. change (h row0 :: map h rest)
      with (map h (row0 :: rest)) in Hr'.
    rewrite nth_error_map, Hr in Hr'. injection Hr' as <-.
    unfold h. cbn. repeat split.
    replace (1 / 20) with (1 / (2 * 10 ^ 1)) by (cbn; field).
    apply np_round_close.
  - intros i j ri rj ri' rj' Hi Hj Hi' Hj' Hle.
    change (h row0 :: map h rest) with (map h (row0 :: rest)) in Hi', Hj'.
    rewrite nth_error_map, Hi in Hi'. rewrite nth_error_map, Hj in Hj'.
    injection Hi' as <-. injection Hj' as <-. unfold h. cbn.
    apply np_round_monotone. lra.
Qed.

(** X17.  [adjust_time] is idempotent: applied to a table it has returned,
    it returns that table again. *)
Theorem adjust_time_is_idempotent (df df' : list AnimationTab.traj) :
  AnimationTab.adjust_time df = AnimationTab.Returns df' ->
  AnimationTab.adjust_time df' = AnimationTab.Returns df'.
Proof.
  destruct df as [|row0 rest]; [discriminate|].
  rewrite adjust_time_rows. intros [= <-].
  cbn [map]. rewrite adjust_time_rows. f_equal.
  cbn [AnimationTab.t_s].
  replace (AnimationTab.t_s row0 - AnimationTab.t_s row0) with 0 by ring.
  rewrite np_round_zero.
  cbn [map AnimationTab.id AnimationTab.t_s AnimationTab.lon_wgs84
       AnimationTab.lat_wgs84].
  rewrite Rminus_0_r, np_round_zero. f_equal.
  rewrite map_map. apply map_ext. intros r.
  cbn [AnimationTab.id AnimationTab.t_s AnimationTab.lon_wgs84
       AnimationTab.lat_wgs84].
  now rewrite Rminus_0_r, np_round_fixed.
Qed.

Lemma adjust_time_is_idempotent_witness :
  exists df',
    AnimationTab.adjust_time
      [AnimationTab.mkTraj 1 5 4 45; AnimationTab.mkTraj 1 7 4 45]
    = AnimationTab.Returns df'
    /\ AnimationTab.adjust_time df' = AnimationTab.Returns df'.
Proof.
  eexists. split; [reflexivity|].
  apply (adjust_time_is_idempotent
           [AnimationTab.mkTraj 1 5 4 45; AnimationTab.mkTraj 1 7 4 45]).
  reflexivity.
Defined.

(** * Trajectory preparation: sorting, differences, velocities *)

Lemma key_leb_spec (a b : Z * R) :
  AnimationTab.key_leb a b = true
  <-> (fst a < fst b)%Z \/ (fst a = fst b /\ snd a <= snd b).
Proof.
  unfold AnimationTab.key_leb.
  rewrite orb_true_iff, andb_true_iff, Z.ltb_lt, Z.eqb_eq.
  destruct (Rle_dec (snd a) (snd b)); intuition (try discriminate; lra).
Qed.

Lemma key_leb_total (a b : Z * R) :
  AnimationTab.key_leb a b = false -> AnimationTab.key_leb b a = true.
Proof.
  intros H. apply key_leb_spec.
  destruct (Z.lt_trichotomy (fst a) (fst b)) as [Hlt|[Heq|Hgt]].
  - assert (AnimationTab.key_leb a b = true) as E
      by (apply key_leb_spec; now left). congruence.
  - destruct (Rle_dec (snd a) (snd b)) as [Hle|Hnle].
    + assert (AnimationTab.key_leb a b = true) as E
        by (apply key_leb_spec; right; now split). congruence.
    + right. split; [congruence|lra].
  - now left.
Qed.

Lemma key_leb_trans (a b c : Z * R) :
  AnimationTab.key_leb a b = true -> AnimationTab.key_leb b c = true ->
  AnimationTab.key_leb a c = true.
Proof.
  rewrite !key_leb_spec. intros [H1|[H1 H1']] [H2|[H2 H2']].
  - left. lia.
  - left. lia.
  - left. lia.
  - right. split; [congruence|lra].
Qed.

Section SortValuesFacts.

Context {A : Type} (key : A -> Z * R).


Lemma insert_row_Permutation (r : A) (l : list A) :
  Permutation (AnimationTab.insert_row key r l) (r :: l).
Proof.
  induction l as [|h t IH]; cbn; [apply Permutation_refl|].
  destruct (AnimationTab.key_leb (key r) (key h)); [apply Permutation_refl|].
  rewrite IH. apply perm_swap.
Qed.

Lemma insert_row_sorted (r : A) (l : list A) :
  StronglySorted
    (fun a b : A => AnimationTab.key_leb (key a) (key b) = true) l ->
  StronglySorted
    (fun a b : A => AnimationTab.key_leb (key a) (key b) = true)
    (AnimationTab.insert_row key r l).
Proof.
  induction 1 as [|h t Hs IH Hall]; cbn.
  - constructor; constructor.
  - destruct (AnimationTab.key_leb (key r) (key h)) eqn:E.
    + constructor; [now constructor|]. constructor; [exact E|].
      eapply Forall_impl; [|exact Hall]. intros b Hb.
      cbv beta in *. now apply (key_leb_trans _ (key h)).
    + constructor; [exact IH|]. apply Forall_forall. intros b Hb.
      apply (Permutation_in _ (insert_row_Permutation r t)) in Hb.
      destruct Hb as [<-|Hb].
      * now apply key_leb_total.
      * rewrite Forall_forall in Hall. now apply Hall.
Qed.

Lemma sort_values_Permutation (l : list A) :
  Permutation (AnimationTab.sort_values key l) l.
Proof.
  induction l as [|r l IH]; cbn; [constructor|].
  rewrite insert_row_Permutation. now constructor.
Qed.

Lemma sort_values_sorted (l : list A) :
  StronglySorted
    (fun a b : A => AnimationTab.key_leb (key a) (key b) = true)
    (AnimationTab.sort_values key l).
Proof.
  induction l as [|r l IH]; cbn; [constructor|].
  now apply insert_row_sorted.
Qed.

Lemma last_of_group_Some (k : Z) (previous : list A) (p : A) :
  AnimationTab.last_of_group key k previous = Some p ->
  In p previous /\ fst (key p) = k.
Proof.
  induction previous as [|h t IH]; cbn; [discriminate|].
  destruct (Z.eqb_spec (fst (key h)) k) as [E|NE].
  - intros [= <-]. split; [now left|exact E].
  - intros H. destruct (IH H). split; [now right|assumption].
Qed.

Lemma last_of_group_None (k : Z) (previous : list A) :
  AnimationTab.last_of_group key k previous = None
  <-> forall p, In p previous -> fst (key p) <> k.
Proof.
  induction previous as [|h t IH]; cbn; [intuition|].
  destruct (Z.eqb_spec (fst (key h)) k) as [E|NE].
  - split; [discriminate|]. intros H. exfalso. now apply (H h); [left|].
  - rewrite IH. split.
    + intros H p [<-|Hp]; [exact NE|now apply H].
    + intros H p Hp. apply H. now right.
Qed.

End SortValuesFacts.

(** The table of [compute_pedestrian_velocity], row by row. *)
Lemma compute_pedestrian_velocity_rows (df : list AnimationTab.traj) :
  AnimationTab.compute_pedestrian_velocity df
  = AnimationTab.velocity_rows_from
      [] (AnimationTab.sort_values AnimationTab.traj_key
            (AnimationTab.with_meters df)).
Proof.
  unfold AnimationTab.compute_pedestrian_velocity. cbv zeta.
  unfold AnimationTab.groupby_diff.
  generalize (@nil (AnimationTab.traj * (R * R))) as previous.
  induction (AnimationTab.sort_values AnimationTab.traj_key
               (AnimationTab.with_meters df)) as [|r rest IH];
    intros previous; [reflexivity|].
  cbn [AnimationTab.groupby_diff_from combine map
       AnimationTab.velocity_rows_from].
  rewrite IH. reflexivity.
Qed.

Lemma velocity_of_first_row :
  AnimationTab.velocity_of AnimationTab.NaN AnimationTab.NaN AnimationTab.NaN
  = (AnimationTab.NaN, AnimationTab.Fin 0).
Proof. reflexivity. Qed.

Lemma velocity_of_later_row (a b d : R) :
  0 <= d ->
  exists v,
    snd (AnimationTab.velocity_of (AnimationTab.Fin a) (AnimationTab.Fin b)
           (AnimationTab.Fin d)) = AnimationTab.Fin v
    /\ 0 <= v.
Proof.
  intros Hd. unfold AnimationTab.velocity_of. cbv zeta. cbn [snd].
  cbn [AnimationTab.xf_square AnimationTab.xf_add AnimationTab.xf_sqrt].
  assert (0 <= a ^ 2 + b ^ 2) as Hsq
    by (apply Rplus_le_le_0_compat; apply pow2_ge_0).
  destruct (Rlt_dec (a ^ 2 + b ^ 2) 0) as [Hneg|_]; [lra|].
  pose proof (sqrt_pos (a ^ 2 + b ^ 2)) as Hs.
  set (dist := sqrt (a ^ 2 + b ^ 2)) in *.
  cbn [AnimationTab.xf_div].
  destruct (Req_dec_T d 0) as [->|Hd0].
  - destruct (Rlt_dec 0 dist); [exists 0; split; [reflexivity|lra]|].
    destruct (Rlt_dec dist 0); exists 0; split; try reflexivity; lra.
  - cbn. exists (AnimationTab.np_round 3 (dist / d)). split; [reflexivity|].
    rewrite <- (np_round_zero 3). apply np_round_monotone.
    apply Rmult_le_pos; [exact Hs|]. apply Rlt_le, Rinv_0_lt_compat. lra.
Qed.

Lemma velocity_rows_from_nonneg
  (previous df : list (AnimationTab.traj * (R * R))) :
  StronglySorted
    (fun a b => AnimationTab.key_leb (AnimationTab.traj_key a)
                  (AnimationTab.traj_key b) = true) df ->
  (forall p r, In p previous -> In r df ->
     AnimationTab.key_leb (AnimationTab.traj_key p)
       (AnimationTab.traj_key r) = true) ->
  Forall (fun row => exists v,
            AnimationTab.velocity row = AnimationTab.Fin v /\ 0 <= v)
         (AnimationTab.velocity_rows_from previous df).
Proof.
  intros Hsorted. revert previous.
  induction Hsorted as [|r rest Hs IH Hall]; intros previous Hprev;
    cbn [AnimationTab.velocity_rows_from]; constructor.
  - unfold AnimationTab.velocity_row_of. cbv zeta.
    cbn [AnimationTab.velocity].
    destruct (AnimationTab.last_of_group AnimationTab.traj_key
                (AnimationTab.id (fst r)) previous) as [q|] eqn:Hq.
    + apply last_of_group_Some in Hq. destruct Hq as [Hin Hid].
      apply velocity_of_later_row.
      specialize (Hprev q r Hin (or_introl eq_refl)).
      apply key_leb_spec in Hprev. cbn [AnimationTab.traj_key fst snd] in *.
      destruct Hprev as [Hlt|[_ Hle]]; [lia|lra].
    + rewrite velocity_of_first_row. exists 0. split; [reflexivity|lra].
  - apply IH. intros p r' [<-|Hp] Hr'.
    + rewrite Forall_forall in Hall. now apply Hall.
    + apply Hprev; [exact Hp|now right].
Qed.

(** X18.  In the table [compute_pedestrian_velocity] returns, every
    velocity is a finite number and is not negative: no NaN and no infinity
    is left, whatever the input table (rows of one pedestrian with equal
    times included). *)
Theorem velocities_are_finite_and_not_negative (df : list AnimationTab.traj) :
  df <> [] ->
  Forall (fun row => exists v,
            AnimationTab.velocity row = AnimationTab.Fin v /\ 0 <= v)
         (AnimationTab.compute_pedestrian_velocity df).
Proof.
  intros _. rewrite compute_pedestrian_velocity_rows.
  apply velocity_rows_from_nonneg.
  - apply sort_values_sorted.
  - intros p r [].
Qed.

Lemma velocities_are_finite_and_not_negative_witness :
  Forall (fun row => exists v,
            AnimationTab.velocity row = AnimationTab.Fin v /\ 0 <= v)
         (AnimationTab.compute_pedestrian_velocity
            [AnimationTab.mkTraj 7 0 4 45; AnimationTab.mkTraj 7 0 4 46]).
Proof.
  apply (velocities_are_finite_and_not_negative
           [AnimationTab.mkTraj 7 0 4 45; AnimationTab.mkTraj 7 0 4 46]).
  discriminate.
Defined.

Lemma velocity_rows_from_keys
  (previous df : list (AnimationTab.traj * (R * R))) :
  map (fun row => (AnimationTab.v_id row, AnimationTab.v_t_s row))
      (AnimationTab.velocity_rows_from previous df)
  = map AnimationTab.traj_key df.
Proof.
  revert previous. induction df as [|r rest IH]; intros previous;
    cbn [AnimationTab.velocity_rows_from map]; [reflexivity|].
  now rewrite IH.
Qed.

(** X19.  [compute_pedestrian_velocity] keeps every row and loses none: the
    (id, time) pairs of the returned table are a permutation of those of the
    input, and they are sorted by id first and by time within an id. *)
Theorem velocity_table_is_the_input_sorted (df : list AnimationTab.traj) :
  df <> [] ->
  Permutation
    (map (fun row => (AnimationTab.v_id row, AnimationTab.v_t_s row))
         (AnimationTab.compute_pedestrian_velocity df))
    (map (fun r => (AnimationTab.id r, AnimationTab.t_s r)) df)
  /\ StronglySorted
       (fun a b : Z * R =>
          (fst a < fst b)%Z \/ (fst a = fst b /\ snd a <= snd b))
       (map (fun row => (AnimationTab.v_id row, AnimationTab.v_t_s row))
            (AnimationTab.compute_pedestrian_velocity df)).
Proof.
  intros _.
  rewrite compute_pedestrian_velocity_rows, velocity_rows_from_keys. split.
  - rewrite (Permutation_map _
               (sort_values_Permutation AnimationTab.traj_key
                  (AnimationTab.with_meters df))).
    unfold AnimationTab.with_meters. rewrite map_map.
    apply Permutation_refl.
  - pose proof (sort_values_sorted AnimationTab.traj_key
                  (AnimationTab.with_meters df)) as Hs.
    induction Hs as [|r rest _ IH Hall]; cbn [map]; constructor;
      [exact IH|].
    rewrite Forall_map. eapply Forall_impl; [|exact Hall].
    intros b Hb. now apply key_leb_spec.
Qed.

Lemma velocity_table_is_the_input_sorted_witness :
  Permutation
    (map (fun row => (AnimationTab.v_id row, AnimationTab.v_t_s row))
         (AnimationTab.compute_pedestrian_velocity
            [AnimationTab.mkTraj 8 1 4 45; AnimationTab.mkTraj 7 0 4 46]))
    (map (fun r => (AnimationTab.id r, AnimationTab.t_s r))
         [AnimationTab.mkTraj 8 1 4 45; AnimationTab.mkTraj 7 0 4 46])
  /\ StronglySorted
       (fun a b : Z * R =>
          (fst a < fst b)%Z \/ (fst a = fst b /\ snd a <= snd b))
       (map (fun row => (AnimationTab.v_id row, AnimationTab.v_t_s row))
            (AnimationTab.compute_pedestrian_velocity
               [AnimationTab.mkTraj 8 1 4 45; AnimationTab.mkTraj 7 0 4 46])).
Proof.
  apply (velocity_table_is_the_input_sorted
           [AnimationTab.mkTraj 8 1 4 45; AnimationTab.mkTraj 7 0 4 46]).
  discriminate.
Defined.

Lemma velocity_rows_from_nth
  (previous df : list (AnimationTab.traj * (R * R))) (i : nat)
  (row : AnimationTab.velocity_row) :
  nth_error (AnimationTab.velocity_rows_from previous df) i = Some row ->
  exists r,
    nth_error df i = Some r
    /\ row = AnimationTab.velocity_row_of r
               (AnimationTab.last_of_group AnimationTab.traj_key
                  (AnimationTab.id (fst r)) (rev (firstn i df) ++ previous)).
Proof.
  revert previous i. induction df as [|r rest IH]; intros previous i;
    cbn [AnimationTab.velocity_rows_from].
  - destruct i; discriminate.
  - destruct i as [|i]; cbn [nth_error firstn rev].
    + intros [= <-]. exists r. split; reflexivity.
    + intros H. apply IH in H. destruct H as (r' & Hr' & ->).
      exists r'. split; [exact Hr'|]. now rewrite <- app_assoc.
Qed.

Lemma in_firstn_nth {A : Type} (l : list A) (i : nat) (a : A) :
  In a (firstn i l) -> exists j, (j < i)%nat /\ nth_error l j = Some a.
Proof.
  revert i. induction l as [|h t IH]; intros i Hin.
  - rewrite firstn_nil in Hin. contradiction.
  - destruct i as [|i]; [contradiction|]. destruct Hin as [<-|Hin].
    + exists 0%nat. split; [lia|reflexivity].
    + destruct (IH i Hin) as (j & Hj & E). exists (S j). split; [lia|exact E].
Qed.

(** X20.  In the returned table the first row of every pedestrian (a row
    that no earlier row shares its id with) has NaN differences and distance
    and the velocity 0. *)
Theorem first_row_of_a_pedestrian_has_velocity_zero
  (df : list AnimationTab.traj) (i : nat) (row : AnimationTab.velocity_row) :
  nth_error (AnimationTab.compute_pedestrian_velocity df) i = Some row ->
  (forall j earlier,
     (j < i)%nat ->
     nth_error (AnimationTab.compute_pedestrian_velocity df) j = Some earlier ->
     AnimationTab.v_id earlier <> AnimationTab.v_id row) ->
  AnimationTab.delta_x row = AnimationTab.NaN
  /\ AnimationTab.delta_y row = AnimationTab.NaN
  /\ AnimationTab.delta_t row = AnimationTab.NaN
  /\ AnimationTab.distance row = AnimationTab.NaN
  /\ AnimationTab.velocity row = AnimationTab.Fin 0.
Proof.
  rewrite compute_pedestrian_velocity_rows.
  set (sorted := AnimationTab.sort_values AnimationTab.traj_key
                   (AnimationTab.with_meters df)).
  intros Hrow Hfirst.
  destruct (velocity_rows_from_nth _ _ _ _ Hrow) as (r & Hr & ->).
  assert (AnimationTab.last_of_group AnimationTab.traj_key
            (AnimationTab.id (fst r)) (rev (firstn i sorted) ++ [])
          = None) as ->.
  { apply last_of_group_None. intros p Hp. rewrite app_nil_r in Hp.
    apply in_rev, in_firstn_nth in Hp. destruct Hp as (j & Hj & Ep).
    pose proof (velocity_rows_from_keys [] sorted) as Hkeys.
    apply (f_equal (fun l => nth_error l j)) in Hkeys.
    rewrite !nth_error_map, Ep in Hkeys.
    destruct (nth_error (AnimationTab.velocity_rows_from [] sorted) j)
      as [earlier|] eqn:Ee; [|discriminate].
    cbn in Hkeys. injection Hkeys as Eid _.
    specialize (Hfirst j earlier Hj Ee). cbn in Hfirst.
    unfold AnimationTab.traj_key. cbn [fst]. congruence. }
  repeat split.
Qed.

Lemma first_row_of_a_pedestrian_has_velocity_zero_witness :
  exists row,
    nth_error (AnimationTab.compute_pedestrian_velocity
                 [AnimationTab.mkTraj 7 0 4 45]) 0 = Some row
    /\ AnimationTab.delta_t row = AnimationTab.NaN
    /\ AnimationTab.velocity row = AnimationTab.Fin 0.
Proof.
  eexists. split; [reflexivity|].
  destruct (first_row_of_a_pedestrian_has_velocity_zero
              [AnimationTab.mkTraj 7 0 4 45] 0 _ eq_refl)
    as (_ & _ & Ht & _ & Hv).
  - intros j earlier Hj. lia.
  - split; [exact Ht|exact Hv].
Defined.

(** * The camera map: loading the cameras *)

Lemma dict_get_set_new {V : Type} (k : String.string) (v : V)
  (d : MapTab.dict V) :
  ~ In k (map fst d) -> MapTab.dict_set k v d = d ++ [(k, v)].
Proof.
  induction d as [|[k' v'] d IH]; cbn; [reflexivity|]. intros Hnew.
  destruct (String.eqb_spec k' k) as [->|_]; [exfalso; apply Hnew; now left|].
  rewrite IH; [reflexivity|]. intros Hin. apply Hnew. now right.
Qed.


Lemma load_entries_in_file_order
  (entries : list (String.string * MapTab.json))
  (cameras : MapTab.dict MapTab.Camera) (errors : list MapTab.st_error) :
  NoDup (map fst cameras ++ map fst entries) ->
  MapTab.load_entries entries cameras errors
  = (cameras
     ++ flat_map (fun entry =>
                    match MapTab.camera_of_info (snd entry) with
                    | inr camera => [(fst entry, camera)]
                    | inl _ => []
                    end) entries,
     errors
     ++ flat_map (fun entry =>
                    match MapTab.camera_of_info (snd entry) with
                    | inr _ => []
                    | inl e => [MapTab.message_of e]
                    end) entries).
Proof.
  revert cameras errors.
  induction entries as [|[key info] rest IH]; intros cameras errors Hnd;
    cbn [MapTab.load_entries flat_map fst snd].
  - now rewrite !app_nil_r.
  - cbn [map fst] in Hnd.
    destruct (MapTab.camera_of_info info) as [e|camera].
    + rewrite IH.
      * cbn [app]. now rewrite <- app_assoc.
      * eapply NoDup_remove_1. exact Hnd.
    + assert (~ In key (map fst cameras)) as Hnew.
      { apply NoDup_remove_2 in Hnd. intros Hin. apply Hnd.
        apply in_or_app. now left. }
      rewrite (dict_get_set_new key camera cameras Hnew), IH.
      * cbn [app]. now rewrite <- app_assoc.
      * rewrite map_app. cbn [map fst]. rewrite <- app_assoc. exact Hnd.
Qed.

(** X21.  A camera file whose top level is an object never makes the loader
    raise, whatever its entries hold.  The cameras returned are the entries
    that pass the checks, in file order and under their keys; the messages
    shown are one per entry that fails, in file order; so every entry is
    either loaded or reported, and a bad entry leaves the others alone. *)
Theorem loader_keeps_good_entries_and_reports_the_others
  (members : list (String.string * MapTab.json)) :
  NoDup (map fst members) ->
  exists cameras errors,
    MapTab.load_cameras_from_json (MapTab.Parsed (MapTab.JObject members))
    = MapTab.Returns (cameras, errors)
    /\ cameras
       = flat_map (fun entry =>
                     match MapTab.camera_of_info (snd entry) with
                     | inr camera => [(fst entry, camera)]
                     | inl _ => []
                     end) members
    /\ errors
       = flat_map (fun entry =>
                     match MapTab.camera_of_info (snd entry) with
                     | inr _ => []
                     | inl e => [MapTab.message_of e]
                     end) members
    /\ (length cameras + length errors = length members)%nat.
Proof.
  intros Hnd. eexists _, _. split; [|split; [reflexivity|split; [reflexivity|]]].
  - cbn [MapTab.load_cameras_from_json].
    rewrite load_entries_in_file_order by exact Hnd. reflexivity.
  - clear Hnd. induction members as [|[key info] rest IH];
      cbn [flat_map length fst snd]; [reflexivity|].
    rewrite !length_app.
    destruct (MapTab.camera_of_info info); cbn [length]; lia.
Qed.

Lemma loader_keeps_good_entries_and_reports_the_others_witness :
  exists cameras errors,
    MapTab.load_cameras_from_json
      (MapTab.Parsed
         (MapTab.JObject
            [("cam1"%string,
              MapTab.JObject
                [("location"%string,
                  MapTab.JArray [MapTab.JInt 45; MapTab.JInt 4])]);
             ("cam2"%string, MapTab.JNull)]))
    = MapTab.Returns (cameras, errors)
    /\ cameras = []
    /\ errors = [MapTab.ProcessingMessage MapTab.LocationNotFloats;
                 MapTab.ProcessingMessage MapTab.TypeError]
    /\ (length cameras + length errors = 2)%nat.
Proof.
  apply (loader_keeps_good_entries_and_reports_the_others
           [("cam1"%string,
             MapTab.JObject
               [("location"%string,
                 MapTab.JArray [MapTab.JInt 45; MapTab.JInt 4])]);
            ("cam2"%string, MapTab.JNull)]).
  repeat constructor; cbn; intuition discriminate.
Defined.

(** X22.  The checks of the loader, read as a criterion: an entry gives a
    camera exactly when it is an object whose ["location"] unpacks to two
    JSON floats and which has the keys ["url"], ["name"] and ["field"]; the
    camera then holds these values unchanged.  Two integers such as
    [[45, 4]] do not pass. *)
Theorem camera_entry_criterion (info : MapTab.json) (camera : MapTab.Camera) :
  (MapTab.camera_of_info info = inr camera
   <-> exists members loc lat lon u n f,
         info = MapTab.JObject members
         /\ MapTab.dict_get "location"%string members = Some loc
         /\ MapTab.py_tuple loc = Some [MapTab.JFloat lat; MapTab.JFloat lon]
         /\ MapTab.dict_get "url"%string members = Some u
         /\ MapTab.dict_get "name"%string members = Some n
         /\ MapTab.dict_get "field"%string members = Some f
         /\ camera = MapTab.mkCamera (lat, lon) u n f)
  /\ forall members a b,
       MapTab.dict_get "location"%string members
       = Some (MapTab.JArray [MapTab.JInt a; MapTab.JInt b]) ->
       MapTab.camera_of_info (MapTab.JObject members)
       = inl MapTab.LocationNotFloats.
Proof.
  split; [split|].
  - unfold MapTab.camera_of_info, MapTab.subscript.
    destruct info as [| | | | | |members]; try discriminate.
    destruct (MapTab.dict_get "location"%string members) as [loc|] eqn:Eloc;
      [|discriminate].
    destruct (MapTab.py_tuple loc) as [[|a [|b [|c items]]]|] eqn:Etuple;
      try discriminate.
    destruct a; try discriminate. destruct b; try discriminate.
    destruct (MapTab.dict_get "url"%string members) as [u|] eqn:Eu; [|discriminate].
    destruct (MapTab.dict_get "name"%string members) as [n|] eqn:En; [|discriminate].
    destruct (MapTab.dict_get "field"%string members) as [f|] eqn:Ef; [|discriminate].
    intros [= <-]. now exists members, loc, r, r0, u, n, f.
  - intros (members & loc & lat & lon & u & n & f
            & -> & Eloc & Etuple & Eu & En & Ef & ->).
    unfold MapTab.camera_of_info, MapTab.subscript.
    now rewrite Eloc, Etuple, Eu, En, Ef.
  - intros members a b Eloc.
    unfold MapTab.camera_of_info, MapTab.subscript. now rewrite Eloc.
Qed.

(** * The camera map: from a click to a video *)

Lemma before_colon_of_tooltip (key rest : String.string) :
  ~ In ":"%char (String.list_ascii_of_string key) ->
  MapTab.before_colon (String.append key (String.String ":"%char rest)) = key.
Proof.
  induction key as [|c key IH]; cbn; intros Hno; [reflexivity|].
  destruct (Ascii.eqb_spec c ":"%char) as [->|_].
  - exfalso. apply Hno. now left.
  - rewrite IH; [reflexivity|]. intros Hin. apply Hno. now right.
Qed.

Lemma before_colon_stops (key : String.string) :
  In ":"%char (String.list_ascii_of_string key) ->
  forall rest,
    MapTab.before_colon (String.append key rest) = MapTab.before_colon key
    /\ MapTab.before_colon key <> key.
Proof.
  induction key as [|c key IH]; cbn; intros Hin rest; [contradiction|].
  destruct (Ascii.eqb_spec c ":"%char) as [->|Hc].
  - split; [reflexivity|discriminate].
  - destruct Hin as [E|Hin]; [congruence|].
    destruct (IH Hin rest) as [E1 E2]. split; [now rewrite E1|congruence].
Qed.

Lemma tooltip_not_empty (format : MapTab.json -> String.string)
  (key : String.string) (camera : MapTab.Camera) :
  String.eqb (MapTab.marker_tooltip format key camera) ""%string = false.
Proof.
  unfold MapTab.marker_tooltip. destruct key; reflexivity.
Qed.

(** X23.  From a click to the video: when the key of a camera holds no
    colon and the map has been built, a click on the marker [create_map]
    gave that camera makes [main] show the tooltip and play the video of
    that very camera, whatever the name of the camera and whichever of the
    map styles is selected. *)
Theorem marker_click_plays_the_video_of_its_camera
  (format : MapTab.json -> String.string)
  (cameras : MapTab.dict MapTab.Camera) (key selected_layer tile : String.string)
  (camera : MapTab.Camera) :
  MapTab.dict_get key cameras = Some camera ->
  ~ In ":"%char (String.list_ascii_of_string key) ->
  MapTab.dict_get selected_layer MapTab.tile_layers = Some tile ->
  MapTab.main cameras selected_layer (MapTab.Returns tt)
              (Some (MapTab.marker_tooltip format key camera))
  = MapTab.Returns
      [MapTab.Info (MapTab.marker_tooltip format key camera);
       MapTab.Video (MapTab.url camera)].
Proof.
  intros Hget Hcolon Hlayer. unfold MapTab.main.
  rewrite Hlayer, tooltip_not_empty.
  unfold MapTab.marker_tooltip at 1. cbn [String.append].
  rewrite before_colon_of_tooltip by exact Hcolon. now rewrite Hget.
Qed.

Lemma marker_click_plays_the_video_of_its_camera_witness :
  MapTab.main
    [("cam1"%string,
      MapTab.mkCamera (45, 4) (MapTab.JString "https://example.org/1.mp4"%string)
                      (MapTab.JString "Terreaux"%string) MapTab.JNull)]
    "Open Street Map"%string (MapTab.Returns tt)
    (Some (MapTab.marker_tooltip
             (fun _ => "Terreaux"%string) "cam1"%string
             (MapTab.mkCamera (45, 4)
                (MapTab.JString "https://example.org/1.mp4"%string)
                (MapTab.JString "Terreaux"%string) MapTab.JNull)))
  = MapTab.Returns
      [MapTab.Info
         (MapTab.marker_tooltip
            (fun _ => "Terreaux"%string) "cam1"%string
            (MapTab.mkCamera (45, 4)
               (MapTab.JString "https://example.org/1.mp4"%string)
               (MapTab.JString "Terreaux"%string) MapTab.JNull));
       MapTab.Video (MapTab.JString "https://example.org/1.mp4"%string)].
Proof.
  apply (marker_click_plays_the_video_of_its_camera
           (fun _ => "Terreaux"%string) _ "cam1"%string
           "Open Street Map"%string "openstreetmap"%string).
  - reflexivity.
  - cbn. intuition discriminate.
  - reflexivity.
Defined.

(** X24.  A colon in a key breaks the link: [main] looks the camera up under
    the part of the tooltip before its first colon, which for such a key is
    not the key; unless that part is itself the key of a camera, the click
    on the marker ends with "No video linked to ...". *)
Theorem colon_in_a_key_unlinks_the_marker
  (format : MapTab.json -> String.string)
  (cameras : MapTab.dict MapTab.Camera) (key selected_layer tile : String.string)
  (camera : MapTab.Camera) :
  In ":"%char (String.list_ascii_of_string key) ->
  MapTab.dict_get (MapTab.before_colon key) cameras = None ->
  MapTab.dict_get selected_layer MapTab.tile_layers = Some tile ->
  MapTab.before_colon key <> key
  /\ MapTab.main cameras selected_layer (MapTab.Returns tt)
                 (Some (MapTab.marker_tooltip format key camera))
     = MapTab.Returns
         [MapTab.Info (MapTab.marker_tooltip format key camera);
          MapTab.Error
            (String.append "No video linked to "%string
               (String.append (MapTab.marker_tooltip format key camera) "."%string))].
Proof.
  intros Hcolon Hget Hlayer.
  destruct (before_colon_stops key Hcolon
              (String.append ": "%string (format (MapTab.name camera)))) as [E NE].
  split; [exact NE|]. unfold MapTab.main.
  rewrite Hlayer, tooltip_not_empty.
  unfold MapTab.marker_tooltip at 1. now rewrite E, Hget.
Qed.

Lemma colon_in_a_key_unlinks_the_marker_witness :
  MapTab.before_colon "north:1"%string <> "north:1"%string
  /\ MapTab.main
       [("north:1"%string,
         MapTab.mkCamera (45, 4) MapTab.JNull MapTab.JNull MapTab.JNull)]
       "Open Street Map"%string (MapTab.Returns tt)
       (Some (MapTab.marker_tooltip
                (fun _ => "n"%string) "north:1"%string
                (MapTab.mkCamera (45, 4) MapTab.JNull MapTab.JNull
                                 MapTab.JNull)))
     = MapTab.Returns
         [MapTab.Info
            (MapTab.marker_tooltip
               (fun _ => "n"%string) "north:1"%string
               (MapTab.mkCamera (45, 4) MapTab.JNull MapTab.JNull
                                MapTab.JNull));
          MapTab.Error
            (String.append "No video linked to "%string
               (String.append
                  (MapTab.marker_tooltip
                     (fun _ => "n"%string) "north:1"%string
                     (MapTab.mkCamera (45, 4) MapTab.JNull MapTab.JNull
                                      MapTab.JNull)) "."%string))].
Proof.
  apply (colon_in_a_key_unlinks_the_marker
           (fun _ => "n"%string) _ "north:1"%string
           "Open Street Map"%string "openstreetmap"%string).
  - cbn. tauto.
  - reflexivity.
  - reflexivity.
Defined.

(** * The frames one by one *)

Lemma rows_of_frame_idempotent (f : Z) (data : DataFrame) :
  rows_of_frame f (rows_of_frame f data) = rows_of_frame f data.
Proof.
  unfold rows_of_frame. induction data as [|r data IH]; cbn; [reflexivity|].
  destruct (frame r =? f)%Z eqn:E; cbn; [rewrite E, IH|]; auto.
Qed.

Lemma groupby_one_frame (f : Z) (data : DataFrame) :
  In f (map frame data) ->
  groupby (rows_of_frame f data) = [(f, rows_of_frame f data)].
Proof.
  intros Hin. unfold groupby.
  assert (sorted_keys (map frame (rows_of_frame f data)) = [f]) as ->.
  { apply sorted_lists_same_members.
    - apply sorted_keys_sorted.
    - repeat constructor.
    - intros k. rewrite sorted_keys_In. unfold rows_of_frame. split.
      + intros Hk. apply in_map_iff in Hk. destruct Hk as (r & <- & Hr).
        apply filter_In in Hr. destruct Hr as [_ E].
        apply Z.eqb_eq in E. now left.
      + intros [<-|[]]. apply in_map_iff in Hin.
        destruct Hin as (r & E & Hr). apply in_map_iff. exists r.
        split; [exact E|]. apply filter_In. split; [exact Hr|].
        now apply Z.eqb_eq. }
  cbn [map]. now rewrite rows_of_frame_idempotent.
Qed.

(** X26.  The batch is the frames one by one: on a grid with cells, the
    driver on the whole table returns, in ascending order of the frame
    identifiers, exactly the single profile that the driver returns on the
    rows of each frame alone. *)
Theorem batch_is_the_frames_one_by_one
  (data : DataFrame) (walkable_area : WalkableArea) (grid_size : R)
  (speed_method : SpeedMethod) (gia : option (list R)) (fill_value : np_float)
  (fwhm : R) (profiles : list (list (list R))) :
  compute_speed_profile data walkable_area grid_size speed_method gia
                        fill_value fwhm = Ok profiles ->
  exists profile_of : Z -> list (list R),
    profiles = map profile_of (sorted_keys (map frame data))
    /\ forall f, In f (map frame data) ->
         compute_speed_profile (rows_of_frame f data) walkable_area grid_size
                               speed_method gia fill_value fwhm
         = Ok [profile_of f].
Proof.
  intros Hrun. destruct (Req_dec_T grid_size 0) as [-> | Hg].
  { rewrite compute_speed_profile_zero_step in Hrun. discriminate. }
  destruct (bounds walkable_area) as [[[min_x min_y] max_x] max_y] eqn:Hb.
  destruct (Nat.eq_dec (axis_length (max_y - min_y) grid_size - 1) 0)
    as [Er|Hr].
  { rewrite (compute_speed_profile_empty_lattice _ _ _ _ _ _ _ _ _ _ _ Hb Hg)
      in Hrun by now left. discriminate. }
  destruct (Nat.eq_dec (axis_length (max_x - min_x) grid_size - 1) 0)
    as [Ec|Hc].
  { rewrite (compute_speed_profile_empty_lattice _ _ _ _ _ _ _ _ _ _ _ Hb Hg)
      in Hrun by now right. discriminate. }
  rewrite (compute_speed_profile_on_lattice _ _ _ _ _ _ _ _ _ _ _ Hb Hg)
    in Hrun by lia.
  injection Hrun as <-.
  eexists (fun f => _compute_gaussian_weighted_speed_profile
                      (rows_of_frame f data) _ _ fwhm).
  split.
  - unfold groupby. rewrite map_map. reflexivity.
  - intros f Hf.
    rewrite (compute_speed_profile_on_lattice _ _ _ _ _ _ _ _ _ _ _ Hb Hg)
      by lia.
    now rewrite (groupby_one_frame f data Hf).
Qed.

Lemma batch_is_the_frames_one_by_one_witness :
  exists profile_of : Z -> list (list R),
    [[[1]]; [[2]]] = map profile_of (sorted_keys (map frame [agent_b; agent_a]))
    /\ forall f, In f (map frame [agent_b; agent_a]) ->
         compute_speed_profile (rows_of_frame f [agent_b; agent_a])
                               unit_square 1 GAUSSIAN None np_nan 1
         = Ok [profile_of f].
Proof.
  apply (batch_is_the_frames_one_by_one
           [agent_b; agent_a] unit_square 1 GAUSSIAN None np_nan 1).
  apply two_frames_profiles; [reflexivity|lra].
Defined.
